(** * FluxYoga batch captioning: the orchestration engine of
    [scripts/batch_caption.py], embedded and verified.

    The development follows the script top-down: Python strings and the few
    [str] methods the script calls, [pathlib] names, the source folder as a
    finite map, image discovery, the caption store, the backend invoker and
    the per-image loop of [main]. *)

From Stdlib Require Import String Ascii.
From stdpp Require Import gmap list sorting.

Set Warnings "-register-all".

Open Scope N_scope.
Open Scope list_scope.

(** ** Python strings

    A Python [str] is a sequence of Unicode code points; lone surrogates
    (U+D800..U+DFFF) are legal inside a [str] and only rejected when the text
    is encoded as UTF-8. *)

Abbreviation pystr := (list N).

(** An ASCII literal as a [str] *)
Definition py (s : string) : pystr :=
  map N_of_ascii (list_ascii_of_string s).

Arguments py : simpl never.

(** [str.startswith] *)
Fixpoint startswith (prefix s : pystr) : bool :=
  match prefix, s with
  | [], _ => true
  | _ :: _, [] => false
  | a :: prefix', b :: s' => if decide (a = b) then startswith prefix' s' else false
  end.

(** [sub in s] for a non-empty [sub] *)
Fixpoint contains (sub s : pystr) : bool :=
  startswith sub s ||
  match s with
  | [] => false
  | _ :: s' => contains sub s'
  end.

(** [s.replace(old, new)] for a non-empty [old]: every non-overlapping
    occurrence, scanning from the left. The fuel bounds the number of steps
    by the length of the text. *)
Fixpoint replace_fuel (fuel : nat) (old new s : pystr) : pystr :=
  match fuel with
  | O => s
  | S fuel' =>
      match s with
      | [] => []
      | c :: s' =>
          if startswith old s
          then new ++ replace_fuel fuel' old new (drop (length old) s)
          else c :: replace_fuel fuel' old new s'
      end
  end.

Definition replace (old new s : pystr) : pystr :=
  replace_fuel (length s) old new s.

(** [str.isspace] for one code point: the characters CPython's
    [_PyUnicode_IsWhitespace] accepts. *)
Definition is_space (c : N) : bool :=
  (9 <=? c) && (c <=? 13) || (28 <=? c) && (c <=? 32) ||
  (c =? 133) || (c =? 160) || (c =? 5760) ||
  (8192 <=? c) && (c <=? 8202) || (c =? 8232) || (c =? 8233) ||
  (c =? 8239) || (c =? 8287) || (c =? 12288).

Fixpoint lstrip (s : pystr) : pystr :=
  match s with
  | c :: s' => if is_space c then lstrip s' else s
  | [] => []
  end.

(** [str.strip()] *)
Definition strip (s : pystr) : pystr :=
  reverse (lstrip (reverse (lstrip s))).

(** [str.lower] on the ASCII letters. Outside ASCII the real method also
    maps a few code points (U+212A to [k], U+0130 to [i] followed by U+0307);
    none of these yields a member of [IMAGE_EXTENSIONS], so membership in
    that set is decided the same way. *)
Definition lower_char (c : N) : N :=
  if (65 <=? c) && (c <=? 90) then c + 32 else c.

Definition lower (s : pystr) : pystr := map lower_char s.

(** A [str] can be written through a UTF-8 text stream iff it holds no
    surrogate code point. *)
Definition is_surrogate (c : N) : bool := (55296 <=? c) && (c <=? 57343).

Definition utf8_encodable (s : pystr) : bool := forallb (fun c => negb (is_surrogate c)) s.

(** [str(n)] for a non-negative [int] *)
Fixpoint digits_fuel (fuel : nat) (n : N) (acc : pystr) : pystr :=
  match fuel with
  | O => acc
  | S fuel' =>
      let acc' := (48 + n mod 10) :: acc in
      if n <? 10 then acc' else digits_fuel fuel' (n / 10) acc'
  end.

Definition str_of_N (n : N) : pystr := digits_fuel (S (N.to_nat (N.log2 n))) n [].

Definition str_of_Z (z : Z) : pystr :=
  match z with
  | Zneg p => py "-" ++ str_of_N (Npos p)
  | _ => str_of_N (Z.to_N z)
  end.

Definition str_of_nat (n : nat) : pystr := str_of_N (N.of_nat n).

(** Comparison of [str] values (code point by code point), as [sorted] uses
    it on the names of paths that share their parent. *)
Fixpoint str_le (a b : pystr) : bool :=
  match a, b with
  | [], _ => true
  | _ :: _, [] => false
  | x :: a', y :: b' => if x <? y then true else if y <? x then false else str_le a' b'
  end.

(** ** pathlib names *)

(** [name.rfind('.')]: the index of the last dot, if any. *)
Fixpoint rfind_dot (s : pystr) : option nat :=
  match s with
  | [] => None
  | c :: s' =>
      match rfind_dot s' with
      | Some i => Some (S i)
      | None => if c =? 46 then Some O else None
      end
  end.

(** [PurePath.suffix]: the part of the name from its last dot on, when that
    dot is neither the first nor the last character of the name. *)
Definition path_suffix (name : pystr) : pystr :=
  match rfind_dot name with
  | Some i => if (0 <? i)%nat && (i <? length name - 1)%nat then drop i name else []
  | None => []
  end.

(** [PurePath.with_suffix(s)] on the name *)
Definition with_suffix (name s : pystr) : pystr :=
  take (length name - length (path_suffix name)) name ++ s.

(** Supported image extensions *)
Definition IMAGE_EXTENSIONS : list pystr :=
  [py ".jpg"; py ".jpeg"; py ".png"; py ".bmp"; py ".tiff"; py ".webp"].

(** ** The file system

    The file system maps the paths of the folders that exist to their
    content; a folder maps the names of its entries to regular files (with
    their text) or sub-directories. A regular file can be read-only, in
    which case opening it for writing raises [PermissionError]. Only the
    script writes to the folder it works on: the backends are taken to
    leave it alone. *)

Inductive node :=
  | File (content : pystr) (writable : bool)
  | Dir.

#[global] Instance node_eq_dec : EqDecision node.
Proof. solve_decision. Defined.

Abbreviation folder := (gmap pystr node).
Abbreviation filesystem := (gmap pystr folder).

Definition is_file (n : node) : bool :=
  match n with File _ _ => true | Dir => false end.

(** A path as [iterdir] builds it from a folder and an entry name. *)
Record Path := mkPath { parent : pystr; name : pystr }.

#[global] Instance Path_eq_dec : EqDecision Path.
Proof. solve_decision. Defined.

(** [str(path)], for a folder path in normal form *)
Definition str_of_path (p : Path) : pystr := parent p ++ py "/" ++ name p.

(** The order [sorted] puts the paths of one folder in *)
Definition path_le (p q : Path) : Prop := str_le (name p) (name q) = true.

#[global] Instance path_le_dec : RelDecision path_le.
Proof. intros p q. unfold path_le. apply _. Defined.

(** ** Exceptions

    Every class below derives from [Exception], so that an
    [except Exception] clause catches all of them; [str(e)] is the carried
    message. [JSONDecodeError] is what [json.loads] raises on malformed
    text, [TimeoutExpired] what [subprocess.run] raises when its [timeout]
    elapses. *)

Inductive exn :=
  | ValueError (msg : pystr)
  | TimeoutExpired (msg : pystr)
  | JSONDecodeError (msg : pystr)
  | AttributeError (msg : pystr)
  | OSError (msg : pystr)
  | UnicodeEncodeError (msg : pystr)
  | RuntimeError (msg : pystr).

(** [str(e)] *)
Definition str_of_exn (e : exn) : pystr :=
  match e with
  | ValueError msg | TimeoutExpired msg | JSONDecodeError msg | AttributeError msg
  | OSError msg | UnicodeEncodeError msg | RuntimeError msg => msg
  end.

(** ** Image discovery *)

(** [file_path.is_file() and file_path.suffix.lower() in IMAGE_EXTENSIONS] *)
Definition is_image (entry : pystr * node) : bool :=
  is_file entry.2 && bool_decide (lower (path_suffix entry.1) ∈ IMAGE_EXTENSIONS).

(** [iterdir] lists the entries of the folder in some order, which [sorted]
    then replaces by the order of the names. *)
Definition find_image_files (fs : filesystem) (source_folder : pystr) : exn + list Path :=
  match fs !! source_folder with
  | None => inl (ValueError (py "Source folder does not exist: " ++ source_folder))
  | Some d =>
      inr (merge_sort path_le
             (map (fun entry => mkPath source_folder entry.1)
                  (filter (fun entry => is_image entry = true) (map_to_list d))))
  end.

(** ** Python values

    The values [json.loads] can produce, which are also the values the
    variable [caption] of [main] can hold. A [float] keeps its literal. *)

Inductive pyval :=
  | PyNone
  | PyBool (b : bool)
  | PyInt (z : Z)
  | PyFloat (literal : pystr)
  | PyStr (s : pystr)
  | PyList (items : list pyval)
  | PyDict (items : list (pystr * pyval)).

(** [type(v).__name__] *)
Definition type_name (v : pyval) : pystr :=
  match v with
  | PyNone => py "NoneType"
  | PyBool _ => py "bool"
  | PyInt _ => py "int"
  | PyFloat _ => py "float"
  | PyStr _ => py "str"
  | PyList _ => py "list"
  | PyDict _ => py "dict"
  end.

(** Lookup in a [dict] built from key/value pairs in order: the last pair
    with the key is the binding. *)
Fixpoint dict_lookup (key : pystr) (items : list (pystr * pyval)) : option pyval :=
  match items with
  | [] => None
  | (k, v) :: items' =>
      match dict_lookup key items' with
      | Some v' => Some v'
      | None => if decide (k = key) then Some v else None
      end
  end.

(** [response.get(key, default)]: defined on a [dict] only. *)
Definition response_get (response : pyval) (key : pystr) (default : pyval) : exn + pyval :=
  match response with
  | PyDict items => inr (from_option id default (dict_lookup key items))
  | _ => inl (AttributeError
                (py "'" ++ type_name response ++ py "' object has no attribute 'get'"))
  end.

(** [subprocess.CompletedProcess] with captured text streams *)
Record CompletedProcess := mkCompleted {
  returncode : Z;
  stdout : pystr;
  stderr : pystr
}.

(** ** The runtime the script runs against

    Everything the script reaches outside its own file: the interpreter
    path and the script directory that go into the command line, the
    decoder [json.loads], and [subprocess.run] with [capture_output=True,
    text=True], which answers a command line and a timeout in seconds with
    a completed process or an exception. *)

Record runtime := mkRuntime {
  sys_executable : pystr;
  script_dir : pystr;
  json_loads : pystr -> exn + pyval;
  subprocess_run : list pystr -> Z -> exn + CompletedProcess
}.

(** ** Progress protocol

    One JSON object per printed line; the constructors are the four values
    of its [type] field. A progress line may carry [current], [total] and
    [filename]. *)

Inductive event :=
  | ErrorEvent (message : pystr)
  | ProgressEvent (message : pystr) (position : option (nat * nat * pystr))
  | FileProcessedEvent (filename caption : pystr)
  | SummaryEvent (total_files processed skipped failed : nat) (processed_list : list pystr).

(** The calls a run makes, in order, each with the image it is made for:
    entering [generate_caption_for_image], [subprocess.run], and entering
    [save_caption]. The script keeps no such record; it is carried along so
    that statements can speak of what was and was not called. *)
Inductive call :=
  | Dispatched (image_path : Path) (model : pystr)
  | Spawned (image_path : Path) (cmd : list pystr) (timeout : Z)
  | Saved (image_path : Path) (caption : pystr).

(** ** Program state

    The file system, the lines printed so far on standard output, the
    three lists [main] fills, and the call record. Logging goes to standard
    error, cannot raise and is left out; [print] on standard output is
    taken not to fail. *)

Record state := mkState {
  files : filesystem;
  printed : list event;
  processed_files : list pystr;
  skipped_files : list pystr;
  failed_files : list pystr;
  calls : list call
}.

(** Computations that read and write the state and may raise. The state
    reached when an exception is raised is kept: effects made before the
    [raise] are not undone. *)
Definition M (A : Type) : Type := state -> (exn + A) * state.

#[global] Instance M_ret : MRet M := fun A a s => (inr a, s).

#[global] Instance M_bind : MBind M := fun A B f m s =>
  match m s with
  | (inl e, s') => (inl e, s')
  | (inr a, s') => f a s'
  end.

Definition raise {A} (e : exn) : M A := fun s => (inl e, s).

(** [try: m except Exception as e: handler e] *)
Definition try_except {A} (m : M A) (handler : exn -> M A) : M A := fun s =>
  match m s with
  | (inl e, s') => handler e s'
  | (inr a, s') => (inr a, s')
  end.

Definition gets {A} (f : state -> A) : M A := fun s => (inr (f s), s).

Definition modify (f : state -> state) : M unit := fun s => (inr tt, f s).

Definition lift {A} (r : exn + A) : M A := fun s => (r, s).

Definition set_files (f : filesystem) (s : state) : state :=
  mkState f (printed s) (processed_files s) (skipped_files s) (failed_files s) (calls s).

(** [print(json.dumps(...))] *)
Definition print (e : event) : M unit := modify (fun s =>
  mkState (files s) (printed s ++ [e]) (processed_files s) (skipped_files s)
          (failed_files s) (calls s)).

Definition record_call (c : call) : M unit := modify (fun s =>
  mkState (files s) (printed s) (processed_files s) (skipped_files s)
          (failed_files s) (calls s ++ [c])).

Definition processed_append (n : pystr) : M unit := modify (fun s =>
  mkState (files s) (printed s) (processed_files s ++ [n]) (skipped_files s)
          (failed_files s) (calls s)).

Definition skipped_append (n : pystr) : M unit := modify (fun s =>
  mkState (files s) (printed s) (processed_files s) (skipped_files s ++ [n])
          (failed_files s) (calls s)).

Definition failed_append (n : pystr) : M unit := modify (fun s =>
  mkState (files s) (printed s) (processed_files s) (skipped_files s)
          (failed_files s ++ [n]) (calls s)).

(** [processed_files = []; skipped_files = []; failed_files = []] *)
Definition reset_lists : M unit := modify (fun s =>
  mkState (files s) (printed s) [] [] [] (calls s)).

(** ** Caption store *)

(** [image_path.with_suffix('.txt')], as a name in the image's folder *)
Definition caption_name (image_path : Path) : pystr :=
  with_suffix (name image_path) (py ".txt").

Definition lookup_entry (fs : filesystem) (dir entry : pystr) : option node :=
  d ← fs !! dir; d !! entry.

Definition caption_exists (image_path : Path) : M bool :=
  gets (fun s =>
    bool_decide (is_Some (lookup_entry (files s) (parent image_path) (caption_name image_path)))).

(** The text [save_caption] writes. *)
Definition final_caption (caption : pystr) (template : option pystr) : pystr :=
  match template with
  | Some t =>
      if negb (bool_decide (t = [])) && contains (py "{caption}") t
      then replace (py "{caption}") caption t
      else caption
  | None => caption
  end.

(** [open(caption_path, 'w', encoding='utf-8')]: fails on a directory, on a
    read-only file and in a folder that does not exist; otherwise the file
    is created or truncated. *)
Definition open_w (dir entry : pystr) : M unit := fun s =>
  match files s !! dir with
  | None => (inl (OSError (py "[Errno 2] No such file or directory")), s)
  | Some d =>
      match d !! entry with
      | Some Dir => (inl (OSError (py "[Errno 21] Is a directory")), s)
      | Some (File _ false) => (inl (OSError (py "[Errno 13] Permission denied")), s)
      | _ => (inr tt, set_files (<[dir := <[entry := File [] true]> d]> (files s)) s)
      end
  end.

(** [f.write(text)] on the file just opened: the text is encoded as UTF-8,
    which fails on a surrogate code point and then leaves the file empty. *)
Definition write (dir entry text : pystr) : M unit := fun s =>
  if utf8_encodable text
  then
    match files s !! dir with
    | Some d => (inr tt, set_files (<[dir := <[entry := File text true]> d]> (files s)) s)
    | None => (inr tt, s)
    end
  else (inl (UnicodeEncodeError (py "'utf-8' codec can't encode character: surrogates not allowed")), s).

Definition save_caption (image_path : Path) (caption : pystr) (template : option pystr) : M unit :=
  record_call (Saved image_path caption);;
  open_w (parent image_path) (caption_name image_path);;
  write (parent image_path) (caption_name image_path) (final_caption caption template).

(** ** Backend invoker *)

Section Invoker.

Variable rt : runtime.

Definition script (file : string) : pystr := script_dir rt ++ py "/" ++ py file.

(** The command line of each supported model; any other model raises
    [ValueError] before a command exists. *)
Definition build_cmd (image_str model style : pystr) (max_tokens : Z) : exn + list pystr :=
  if bool_decide (model ∈ [py "blip"; py "blip2"]) then
    let model_type := if bool_decide (model = py "blip2") then py "large" else py "base" in
    inr [sys_executable rt; script "generate_blip_caption.py";
         py "--image_path"; image_str;
         py "--model_type"; model_type;
         py "--max_tokens"; str_of_Z max_tokens;
         py "--style"; style]
  else if bool_decide (model = py "gpt-4-vision") then
    inr [sys_executable rt; script "generate_gpt4v_caption.py";
         py "--image_path"; image_str;
         py "--style"; style;
         py "--max_tokens"; str_of_Z max_tokens]
  else if bool_decide (model = py "vit-gpt2") then
    inr [sys_executable rt; script "generate_ofa_caption.py";
         py "--image_path"; image_str;
         py "--max_length"; str_of_Z max_tokens;
         py "--style"; style]
  else if bool_decide (model = py "florence-2") then
    inr [sys_executable rt; script "generate_florence2_caption.py";
         py "--image_path"; image_str;
         py "--model_id"; py "microsoft/Florence-2-base";
         py "--prompt"; py "<MORE_DETAILED_CAPTION>"]
  else inl (ValueError (py "Unsupported model: " ++ model)).

(** [subprocess.run(cmd, capture_output=True, text=True, timeout=120)] *)
Definition run_subprocess (image_path : Path) (cmd : list pystr) : M CompletedProcess :=
  record_call (Spawned image_path cmd 120);;
  lift (subprocess_run rt cmd 120).

(** What the invoker makes of a process that ran to its end. *)
Definition read_result (model : pystr) (result : CompletedProcess) : M pyval :=
  if (returncode result =? 0)%Z then
    if bool_decide (model = py "florence-2") then
      match json_loads rt (strip (stdout result)) with
      | inr response =>
          lift (response_get response (py "caption") (PyStr (py "No caption generated")))
      | inl (JSONDecodeError _) => mret (PyStr (strip (stdout result)))
      | inl e => raise e
      end
    else mret (PyStr (strip (stdout result)))
  else
    let error_msg :=
      if bool_decide (strip (stderr result) = []) then py "Unknown error"
      else strip (stderr result) in
    mret (PyStr (py "Error: " ++ error_msg)).

Definition generate_caption_for_image
    (image_path : Path) (model style : pystr) (max_tokens : Z) : M pyval :=
  record_call (Dispatched image_path model);;
  try_except
    (cmd ← lift (build_cmd (str_of_path image_path) model style max_tokens);
     result ← run_subprocess image_path cmd;
     read_result model result)
    (fun e =>
       match e with
       | TimeoutExpired _ => mret (PyStr (py "Error: Caption generation timed out"))
       | _ => mret (PyStr (py "Error: " ++ str_of_exn e))
       end).

(** ** Batch orchestrator *)

Record Args := mkArgs {
  source_folder : pystr;
  model : pystr;
  style : pystr;
  template : option pystr;
  overwrite : bool;
  max_tokens : Z
}.

Definition MODEL_CHOICES : list pystr :=
  [py "blip"; py "blip2"; py "gpt-4-vision"; py "vit-gpt2"; py "florence-2"].

Definition STYLE_CHOICES : list pystr :=
  [py "detailed"; py "simple"; py "tags"; py "artistic"].

(** The [choices] the argument parser enforces on [--model] and [--style];
    a value outside them ends the process with status 2 before [main] does
    anything else. *)
Definition parse_args (args : Args) : option Args :=
  if bool_decide (model args ∈ MODEL_CHOICES) && bool_decide (style args ∈ STYLE_CHOICES)
  then Some args else None.

(** [caption[:100] + "..." if len(caption) > 100 else caption] *)
Definition shown_caption (caption : pystr) : pystr :=
  if (100 <? length caption)%nat then take 100 caption ++ py "..." else caption.

(** The body of the loop for the image at index [i]. A caption that is not
    a [str] never reaches [save_caption]: a false one takes the [else]
    branch, and on a true one [caption.startswith] raises [AttributeError],
    which the handler of the body answers; both ways append the name to
    [failed_files] and change nothing else of the state. *)
Definition process_image (args : Args) (total_files i : nat) (image_path : Path) : M unit :=
  try_except
    (skip ← (if overwrite args then mret false else caption_exists image_path);
     if skip : bool then
       skipped_append (name image_path);;
       print (ProgressEvent
                (py "Skipped " ++ name image_path ++ py " (caption exists)") None)
     else
       print (ProgressEvent
                (py "Processing " ++ str_of_nat (i + 1) ++ py "/" ++ str_of_nat total_files
                   ++ py ": " ++ name image_path)
                (Some ((i + 1)%nat, total_files, name image_path)));;
       caption ← generate_caption_for_image image_path (model args) (style args)
                   (max_tokens args);
       match caption with
       | PyStr text =>
           if negb (bool_decide (text = [])) && negb (startswith (py "Error") text) then
             save_caption image_path text (template args);;
             processed_append (name image_path);;
             print (FileProcessedEvent (name image_path) (shown_caption text))
           else failed_append (name image_path)
       | _ => failed_append (name image_path)
       end)
    (fun e => failed_append (name image_path)).

(** [for i, image_path in enumerate(image_files)] *)
Fixpoint process_all (args : Args) (total_files i : nat) (image_files : list Path) : M unit :=
  match image_files with
  | [] => mret tt
  | image_path :: rest =>
      process_image args total_files i image_path;;
      process_all args total_files (S i) rest
  end.

Definition summary_event (s : state) (total_files : nat) : event :=
  SummaryEvent total_files (length (processed_files s)) (length (skipped_files s))
               (length (failed_files s)) (processed_files s).

Definition completed_message (s : state) : pystr :=
  py "Batch caption generation completed! Processed: " ++ str_of_nat (length (processed_files s))
    ++ py ", Skipped: " ++ str_of_nat (length (skipped_files s))
    ++ py ", Failed: " ++ str_of_nat (length (failed_files s)).

(** The [try] block of [main]. *)
Definition batch (args : Args) : M unit :=
  fs ← gets files;
  image_files ← lift (find_image_files fs (source_folder args));
  match image_files with
  | [] => print (ErrorEvent (py "No image files found in " ++ source_folder args))
  | _ :: _ =>
      let total_files := length image_files in
      reset_lists;;
      print (ProgressEvent
               (py "Found " ++ str_of_nat total_files ++ py " images to process") None);;
      process_all args total_files 0 image_files;;
      s ← gets id;
      print (summary_event s total_files);;
      print (ProgressEvent (completed_message s) None)
  end.

(** [main], from the parsed command line to the exit status of the
    process: 2 when the argument parser rejects the command line, 1 after
    [sys.exit(1)] in the outer handler, 0 when [main] returns. *)
Definition main (args : Args) (s : state) : Z * state :=
  match parse_args args with
  | None => (2%Z, s)
  | Some args =>
      match batch args s with
      | (inr _, s') => (0%Z, s')
      | (inl e, s') =>
          (1%Z, (print (ErrorEvent (py "Batch caption generation failed: " ++ str_of_exn e)) s').2)
      end
  end.

End Invoker.

Arguments build_cmd : simpl never.

(** A fresh process: nothing printed, empty lists. *)
Definition initial (fs : filesystem) : state := mkState fs [] [] [] [] [].

(** ** A JSON decoder

    [json.loads] as the standard library's scanner and decoder define it,
    used to run the script on concrete backend output. Integers are read
    exactly, a [float] keeps its literal, and [NaN], [Infinity] and
    [-Infinity] are accepted as the library accepts them. Fuel is the length
    of the text still to read, which bounds both the nesting and the number
    of items. *)

Definition is_json_ws (c : N) : bool :=
  (c =? 32) || (c =? 9) || (c =? 10) || (c =? 13).

Fixpoint skip_ws (s : pystr) : pystr :=
  match s with
  | c :: s' => if is_json_ws c then skip_ws s' else s
  | [] => []
  end.

Definition is_digit (c : N) : bool := (48 <=? c) && (c <=? 57).

Definition hex_value (c : N) : option N :=
  if is_digit c then Some (c - 48)
  else if (97 <=? c) && (c <=? 102) then Some (c - 87)
  else if (65 <=? c) && (c <=? 70) then Some (c - 55)
  else None.

(** The four hexadecimal digits after [\u] *)
Definition decode_uXXXX (s : pystr) : option (N * pystr) :=
  match s with
  | a :: b :: c :: d :: rest =>
      a' ← hex_value a; b' ← hex_value b; c' ← hex_value c; d' ← hex_value d;
      Some (((a' * 16 + b') * 16 + c') * 16 + d', rest)
  | _ => None
  end.

Definition backslash (esc : N) : option N :=
  if esc =? 34 then Some 34
  else if esc =? 92 then Some 92
  else if esc =? 47 then Some 47
  else if esc =? 98 then Some 8
  else if esc =? 102 then Some 12
  else if esc =? 110 then Some 10
  else if esc =? 114 then Some 13
  else if esc =? 116 then Some 9
  else None.

Definition cons_char (c : N) (r : option (pystr * pystr)) : option (pystr * pystr) :=
  '(text, rest) ← r; Some (c :: text, rest).

(** The text of a string after its opening quote, and what follows the
    closing quote. Control characters are refused; a high surrogate escape
    followed by a low one is joined into one code point. *)
Fixpoint scanstring (fuel : nat) (s : pystr) : option (pystr * pystr) :=
  match fuel with
  | O => None
  | S fuel' =>
      match s with
      | [] => None
      | 34 :: rest => Some ([], rest)
      | 92 :: 117 :: rest =>
          '(uni, rest1) ← decode_uXXXX rest;
          if (55296 <=? uni) && (uni <=? 56319) then
            match rest1 with
            | 92 :: 117 :: rest2 =>
                '(uni2, rest3) ← decode_uXXXX rest2;
                if (56320 <=? uni2) && (uni2 <=? 57343)
                then cons_char (65536 + ((uni - 55296) * 1024 + (uni2 - 56320)))
                               (scanstring fuel' rest3)
                else cons_char uni (scanstring fuel' rest1)
            | _ => cons_char uni (scanstring fuel' rest1)
            end
          else cons_char uni (scanstring fuel' rest1)
      | 92 :: esc :: rest => c ← backslash esc; cons_char c (scanstring fuel' rest)
      | 92 :: [] => None
      | c :: rest => if c <? 32 then None else cons_char c (scanstring fuel' rest)
      end
  end.

Fixpoint span_digits (s : pystr) : pystr * pystr :=
  match s with
  | c :: s' => if is_digit c then let '(ds, rest) := span_digits s' in (c :: ds, rest)
               else ([], s)
  | [] => ([], [])
  end.

Definition digits_value (ds : pystr) : Z :=
  fold_left (fun acc c => (acc * 10 + Z.of_N (c - 48))%Z) ds 0%Z.

(** The integer part of a number: [0] or a digit from 1 to 9 followed by
    digits. *)
Definition match_integer (s : pystr) : option (pystr * pystr) :=
  match s with
  | 48 :: rest => Some ([48], rest)
  | c :: _ => if is_digit c then Some (span_digits s) else None
  | [] => None
  end.

Definition match_frac (s : pystr) : pystr * pystr :=
  match s with
  | 46 :: rest =>
      match span_digits rest with
      | ([], _) => ([], s)
      | (ds, rest') => (46 :: ds, rest')
      end
  | _ => ([], s)
  end.

Definition match_exp (s : pystr) : pystr * pystr :=
  match s with
  | e :: rest =>
      if (e =? 101) || (e =? 69) then
        let '(sign, rest1) :=
          match rest with
          | c :: rest' => if (c =? 45) || (c =? 43) then ([c], rest') else ([], rest)
          | [] => ([], rest)
          end in
        match span_digits rest1 with
        | ([], _) => ([], s)
        | (ds, rest2) => (e :: sign ++ ds, rest2)
        end
      else ([], s)
  | [] => ([], s)
  end.

Definition match_number (s : pystr) : option (pyval * pystr) :=
  let '(sign, s1) := match s with 45 :: s' => ([45], s') | _ => ([], s) end in
  '(int_part, s2) ← match_integer s1;
  let '(frac, s3) := match_frac s2 in
  let '(exp, s4) := match_exp s3 in
  match frac, exp with
  | [], [] =>
      Some (PyInt (if bool_decide (sign = []) then digits_value int_part
                   else - digits_value int_part)%Z, s4)
  | _, _ => Some (PyFloat (sign ++ int_part ++ frac ++ exp), s4)
  end.

Definition match_word (word : string) (v : pyval) (s : pystr) : option (pyval * pystr) :=
  if startswith (py word) s then Some (v, drop (length (py word)) s) else None.

Section Containers.

Variable scan_once : pystr -> option (pyval * pystr).

(** The items of an array after the first value position *)
Fixpoint array_items (fuel : nat) (s : pystr) : option (list pyval * pystr) :=
  match fuel with
  | O => None
  | S fuel' =>
      '(value, rest) ← scan_once s;
      match skip_ws rest with
      | 93 :: rest' => Some ([value], rest')
      | 44 :: rest' =>
          '(values, rest'') ← array_items fuel' (skip_ws rest');
          Some (value :: values, rest'')
      | _ => None
      end
  end.

(** The pairs of an object, from the opening quote of a key *)
Fixpoint object_pairs (fuel : nat) (s : pystr) : option (list (pystr * pyval) * pystr) :=
  match fuel with
  | O => None
  | S fuel' =>
      match s with
      | 34 :: s1 =>
          '(key, rest) ← scanstring (length s1) s1;
          match skip_ws rest with
          | 58 :: rest1 =>
              '(value, rest2) ← scan_once (skip_ws rest1);
              match skip_ws rest2 with
              | 125 :: rest3 => Some ([(key, value)], rest3)
              | 44 :: rest3 =>
                  '(pairs, rest4) ← object_pairs fuel' (skip_ws rest3);
                  Some ((key, value) :: pairs, rest4)
              | _ => None
              end
          | _ => None
          end
      | _ => None
      end
  end.

End Containers.

Fixpoint scan_once (fuel : nat) (s : pystr) : option (pyval * pystr) :=
  match fuel with
  | O => None
  | S fuel' =>
      match s with
      | 34 :: rest => '(text, rest') ← scanstring (length rest) rest; Some (PyStr text, rest')
      | 123 :: rest =>
          match skip_ws rest with
          | 125 :: rest' => Some (PyDict [], rest')
          | s' => '(pairs, rest') ← object_pairs (scan_once fuel') (length s') s';
                  Some (PyDict pairs, rest')
          end
      | 91 :: rest =>
          match skip_ws rest with
          | 93 :: rest' => Some (PyList [], rest')
          | s' => '(values, rest') ← array_items (scan_once fuel') (length s') s';
                  Some (PyList values, rest')
          end
      | _ =>
          match match_word "null" PyNone s, match_word "true" (PyBool true) s,
                match_word "false" (PyBool false) s, match_number s with
          | Some r, _, _, _ | None, Some r, _, _ | None, None, Some r, _
          | None, None, None, Some r => Some r
          | None, None, None, None =>
              match match_word "NaN" (PyFloat (py "NaN")) s,
                    match_word "Infinity" (PyFloat (py "Infinity")) s with
              | Some r, _ | None, Some r => Some r
              | None, None => match_word "-Infinity" (PyFloat (py "-Infinity")) s
              end
          end
      end
  end.

Definition json_decode (s : pystr) : exn + pyval :=
  match scan_once (S (length s)) (skip_ws s) with
  | Some (v, rest) =>
      match skip_ws rest with
      | [] => inr v
      | _ => inl (JSONDecodeError (py "Extra data"))
      end
  | None => inl (JSONDecodeError (py "Expecting value"))
  end.

(** A runtime for running the script on examples: the decoder above and a
    stub in place of the backends, which answers a command line whatever
    the timeout. *)
Definition stub_runtime (backend : list pystr -> exn + CompletedProcess) : runtime :=
  mkRuntime (py "python3") (py "scripts") json_decode (fun cmd _ => backend cmd).

(** ** Terminal states of an image

    The state machine of the loop: an image ends [Skipped], [Succeeded] or
    [Failed], which the script records by appending its name to
    [skipped_files], [processed_files] or [failed_files]. *)

Inductive verdict := Skipped | Succeeded | Failed.

#[global] Instance verdict_eq_dec : EqDecision verdict.
Proof. solve_decision. Defined.

Definition tally (v w : verdict) (n : pystr) : list pystr :=
  if decide (v = w) then [n] else [].

(** Between [s] and [s'] the name [n] was counted under [v], and nothing
    else was counted. *)
Definition classified (v : verdict) (n : pystr) (s s' : state) : Prop :=
  processed_files s' = processed_files s ++ tally v Succeeded n ∧
  skipped_files s' = skipped_files s ++ tally v Skipped n ∧
  failed_files s' = failed_files s ++ tally v Failed n.

Definition call_image (c : call) : Path :=
  match c with
  | Dispatched p _ | Spawned p _ _ | Saved p _ => p
  end.

Definition is_spawn (c : call) : bool :=
  match c with Spawned _ _ _ => true | _ => false end.

Definition is_save (c : call) : bool :=
  match c with Saved _ _ => true | _ => false end.

Definition is_summary (e : event) : bool :=
  match e with SummaryEvent _ _ _ _ _ => true | _ => false end.

Definition is_error (e : event) : bool :=
  match e with ErrorEvent _ => true | _ => false end.

(** The state with more calls on record *)
Definition add_calls (cs : list call) (s : state) : state :=
  mkState (files s) (printed s) (processed_files s) (skipped_files s)
          (failed_files s) (calls s ++ cs).

#[global] Instance call_eq_dec : EqDecision call.
Proof. solve_decision. Defined.

#[global] Instance event_eq_dec : EqDecision event.
Proof. solve_decision. Defined.

(** * Vocabulary of the statements

    Definitions the properties below are stated with. They read the program
    above; none of them is part of it. *)

(** ** The caption store *)

(** A caption the loop accepts: [caption and not caption.startswith("Error")] *)
Definition usable (text : pystr) : bool :=
  negb (bool_decide (text = [])) && negb (startswith (py "Error") text).

Definition has_caption (fs : filesystem) (p : Path) : bool :=
  bool_decide (is_Some (lookup_entry fs (parent p) (caption_name p))).

(** The sidecar of [p] can be opened for writing. *)
Definition writable_at (fs : filesystem) (p : Path) : bool :=
  match fs !! parent p with
  | None => false
  | Some d =>
      match d !! caption_name p with
      | Some Dir | Some (File _ false) => false
      | _ => true
      end
  end.

(** The file system with [text] in the sidecar of [p] *)
Definition put (fs : filesystem) (p : Path) (text : pystr) : filesystem :=
  match fs !! parent p with
  | Some d => <[parent p := <[caption_name p := File text true]> d]> fs
  | None => fs
  end.

(** ** One turn of the loop *)

Section Reading.

Variable rt : runtime.

(** The value the invoker returns *)
Definition invoker_answer (p : Path) (m st : pystr) (mt : Z) : pyval :=
  match (generate_caption_for_image rt p m st mt (initial ∅)).1 with
  | inr v => v
  | inl _ => PyNone
  end.

(** The calls the invoker makes *)
Definition invoker_calls (p : Path) (m st : pystr) (mt : Z) : list call :=
  calls (generate_caption_for_image rt p m st mt (initial ∅)).2.

(** The image is skipped: [not args.overwrite and caption_exists(image_path)] *)
Definition skips (args : Args) (p : Path) (s : state) : bool :=
  negb (overwrite args) && has_caption (files s) p.

(** The value the invoker returns for the image [p] in a run with [args] *)
Definition answer (args : Args) (p : Path) : pyval :=
  invoker_answer p (model args) (style args) (max_tokens args).

(** The invoker returns [v] for the image [p], whatever the state it is
    entered in, and does not raise. *)
Definition returns (args : Args) (p : Path) (v : pyval) : Prop :=
  ∀ s, (generate_caption_for_image rt p (model args) (style args) (max_tokens args) s).1
       = inr v.

(** Where the turn of [p] ends, read off the state it starts in. *)
Definition step_verdict (args : Args) (p : Path) (s : state) : verdict :=
  if skips args p s then Skipped
  else
    match answer args p with
    | PyStr text =>
        if usable text && writable_at (files s) p
           && utf8_encodable (final_caption text (template args))
        then Succeeded else Failed
    | _ => Failed
    end.

Definition step_calls (args : Args) (p : Path) (s : state) : list call :=
  if skips args p s then []
  else
    invoker_calls p (model args) (style args) (max_tokens args) ++
    match answer args p with
    | PyStr text => if usable text then [Saved p text] else []
    | _ => []
    end.

Definition step_files (args : Args) (p : Path) (s : state) : filesystem :=
  if skips args p s then files s
  else
    match answer args p with
    | PyStr text =>
        if usable text && writable_at (files s) p
        then put (files s) p
               (if utf8_encodable (final_caption text (template args))
                then final_caption text (template args) else [])
        else files s
    | _ => files s
    end.

Definition step_events (args : Args) (total_files i : nat) (p : Path) (s : state) : list event :=
  if skips args p s
  then [ProgressEvent (py "Skipped " ++ name p ++ py " (caption exists)") None]
  else
    ProgressEvent
      (py "Processing " ++ str_of_nat (i + 1) ++ py "/" ++ str_of_nat total_files
         ++ py ": " ++ name p)
      (Some ((i + 1)%nat, total_files, name p)) ::
    match answer args p with
    | PyStr text =>
        if usable text && writable_at (files s) p
           && utf8_encodable (final_caption text (template args))
        then [FileProcessedEvent (name p) (shown_caption text)] else []
    | _ => []
    end.

End Reading.

Section Turns.

Variable rt : runtime.
Variable args : Args.
Variable total_files : nat.

(** The state in which the turn of the image after [before] starts. *)
Definition turn_start (before : list Path) (s : state) : state :=
  (process_all rt args total_files 0 before s).2.

End Turns.

(** From [s] to [s'] the images of [l] were counted once each, only calls
    for them were made and only progress was printed; no file was removed,
    and a file changed only if [save_caption] was entered for an image
    whose sidecar it is. *)
Definition grows (l : list Path) (s s' : state) : Prop :=
  ∃ P S F cs evs,
    processed_files s' = processed_files s ++ P ∧
    skipped_files s' = skipped_files s ++ S ∧
    failed_files s' = failed_files s ++ F ∧
    calls s' = calls s ++ cs ∧
    printed s' = printed s ++ evs ∧
    P ++ S ++ F ≡ₚ map name l ∧
    Forall (λ c, call_image c ∈ l) cs ∧
    Forall (λ e, is_summary e = false ∧ is_error e = false) evs ∧
    (∀ d e, is_Some (lookup_entry (files s) d e) → is_Some (lookup_entry (files s') d e)) ∧
    (∀ d e, lookup_entry (files s') d e ≠ lookup_entry (files s) d e →
       ∃ p c, Saved p c ∈ cs ∧ parent p = d ∧ caption_name p = e).

(** ** A run: the [try] block of [main] *)

Section Ends.

Variable rt : runtime.
Variable args : Args.

(** The state in which the loop starts *)
Definition loop_start (images : list Path) (s : state) : state :=
  mkState (files s)
          (printed s ++ [ProgressEvent
                           (py "Found " ++ str_of_nat (length images)
                              ++ py " images to process") None])
          [] [] [] (calls s).

(** The state in which the loop ends *)
Definition loop_end (images : list Path) (s : state) : state :=
  (process_all rt args (length images) 0 images (loop_start images s)).2.

End Ends.

(** ** Image discovery *)

(** The extensions of the supported set, without their dot *)
Definition EXTENSIONS : list pystr :=
  [py "jpg"; py "jpeg"; py "png"; py "bmp"; py "tiff"; py "webp"].

(** The extension of a name as the script reads it: the suffix without its
    dot, in lower case. *)
Definition has_extension (n ext : pystr) : Prop :=
  lower (path_suffix n) = py "." ++ ext.

(** *** The words of the specification of discovery

    What the specification says of discovery, written without the
    functions of the script ([lower], [path_suffix], [str_le]), so that the
    script can be compared with it. *)

(** An ASCII capital letter *)
Definition is_capital (c : N) : bool := (65 <=? c) && (c <=? 90).

(** Two code points that are the same when case is ignored: the same code
    point, or an ASCII capital and its small letter, 32 places further. *)
Definition same_char_ignoring_case (a b : N) : Prop :=
  a = b ∨ (is_capital a = true ∧ b = a + 32) ∨ (is_capital b = true ∧ a = b + 32).

(** Two texts that are equal when compared case-insensitively *)
Definition same_ignoring_case (s t : pystr) : Prop :=
  Forall2 same_char_ignoring_case s t.

(** [e] is the extension of the name [n]: what follows the last dot of
    [n]. A dot that starts the name (a hidden file) or ends it starts no
    extension. *)
Definition extension_of (n e : pystr) : Prop :=
  ∃ base, n = base ++ 46 :: e ∧ base ≠ [] ∧ e ≠ [] ∧ 46 ∉ e.

(** The name has an extension that, compared case-insensitively, belongs
    to the supported set. *)
Definition supported_image_name (n : pystr) : Prop :=
  ∃ e ext, extension_of n e ∧ ext ∈ EXTENSIONS ∧ same_ignoring_case e ext.

(** [a] is [b] or comes before it in the order of names: [a] starts [b], or
    at the first place where they differ [a] has the smaller code point. *)
Definition name_before (a b : pystr) : Prop :=
  (∃ rest, b = a ++ rest) ∨
  (∃ common x y a' b', a = common ++ x :: a' ∧ b = common ++ y :: b' ∧ x < y).

(** ** Runs on concrete folders *)

Definition imgs : pystr := py "imgs".

Definition a_jpg : Path := mkPath imgs (py "a.jpg").
Definition a_png : Path := mkPath imgs (py "a.png").
Definition b_png : Path := mkPath imgs (py "b.PNG").
Definition c_webp : Path := mkPath imgs (py "c.webp").

Definition picture : node := File [] true.

(** One image, no caption yet *)
Definition fs_one : filesystem :=
  {[ imgs := {[ py "a.jpg" := picture ]} ]}.

(** One image with its caption *)
Definition fs_captioned : filesystem :=
  {[ imgs := {[ py "a.jpg" := picture; py "a.txt" := File (py "old") true ]} ]}.

(** One image with a read-only caption *)
Definition fs_locked : filesystem :=
  {[ imgs := {[ py "a.jpg" := picture; py "a.txt" := File (py "old") false ]} ]}.

(** Two images that share their sidecar name *)
Definition fs_pair : filesystem :=
  {[ imgs := {[ py "a.jpg" := picture; py "a.png" := picture;
                py "a.txt" := File (py "old") true ]} ]}.

(** Three images, the first with a caption, next to entries that are not
    images: a text file, a hidden file named [.jpg], a directory named like
    an image *)
Definition fs_three : filesystem :=
  {[ imgs := {[ py "c.webp" := picture; py "a.jpg" := picture; py "b.PNG" := picture;
                py "a.txt" := File (py "old") true; py "notes.txt" := File (py "x") true;
                py ".jpg" := picture; py "album.png" := Dir ]} ]}.

(** A folder without images *)
Definition fs_empty : filesystem :=
  {[ imgs := {[ py "notes.txt" := File (py "x") true ]} ]}.

(** A backend that exits with code 0 having printed [text] *)
Definition says (text : pystr) : list pystr → exn + CompletedProcess :=
  λ _, inr (mkCompleted 0 text []).

(** A backend that does not end in time *)
Definition hangs : list pystr → exn + CompletedProcess :=
  λ _, inl (TimeoutExpired (py "timed out after 120 seconds")).

(** A backend that captions the images named in [good] and exits with code
    1 on the others *)
Definition captions_only (good : list pystr) (text : pystr)
    : list pystr → exn + CompletedProcess :=
  λ cmd, if existsb (λ g, bool_decide (g ∈ cmd)) good
         then inr (mkCompleted 0 text [])
         else inr (mkCompleted 1 [] (py "cannot read image")).

(** A text between double quotes *)
Definition quoted (s : pystr) : pystr := 34 :: s ++ [34].

(** The JSON object whose [caption] is the escape of a lone surrogate *)
Definition lone_surrogate_json : pystr :=
  py "{" ++ quoted (py "caption") ++ py ": " ++ quoted (py "\ud800") ++ py "}".

Definition args_for (model_id : string) (overwrite_flag : bool) : Args :=
  mkArgs imgs (py model_id) (py "detailed") None overwrite_flag 150.

Definition rt_three : runtime := stub_runtime (captions_only [py "imgs/b.PNG"] (py "a dog")).

Definition blip_cmd (image_str : string) : list pystr :=
  [py "python3"; py "scripts/generate_blip_caption.py"; py "--image_path"; py image_str;
   py "--model_type"; py "base"; py "--max_tokens"; py "150"; py "--style"; py "detailed"].

Definition florence_cmd (image_str : string) : list pystr :=
  [py "python3"; py "scripts/generate_florence2_caption.py"; py "--image_path"; py image_str;
   py "--model_id"; py "microsoft/Florence-2-base"; py "--prompt"; py "<MORE_DETAILED_CAPTION>"].

(** A backend that cannot be started *)
Definition cannot_start : list pystr → exn + CompletedProcess :=
  λ _, inl (OSError (py "[Errno 2] No such file or directory: 'python3'")).

(** Two images with different stems, no caption yet *)
Definition fs_fresh : filesystem :=
  {[ imgs := {[ py "a.jpg" := picture; py "b.PNG" := picture ]} ]}.

(** The JSON object whose [caption] is [value], a JSON text *)
Definition caption_json (value : pystr) : pystr :=
  py "{" ++ quoted (py "caption") ++ py ": " ++ value ++ py "}".

(** ** Names and templates *)

(** [PurePath.stem]: the name without its suffix *)
Definition stem (n : pystr) : pystr :=
  take (length n - length (path_suffix n)) n.

(** The text made of the segments [segs], each followed by [sep], and then
    of [last] *)
Definition segments (sep : pystr) (segs : list pystr) (last : pystr) : pystr :=
  foldr (λ seg acc, seg ++ sep ++ acc) last segs.

(** ** Lines of the protocol *)

(** The file name of a [file_processed] line *)
Definition processed_event_name (e : event) : option pystr :=
  match e with
  | FileProcessedEvent n _ => Some n
  | _ => None
  end.

(** * Properties *)

Lemma elem_of_tally v w n : n ∈ tally v w n ↔ v = w.
Proof.
  unfold tally. destruct (decide (v = w)).
  - split; [done|]. intros _. by left.
  - rewrite elem_of_nil. tauto.
Qed.

(** ** The backend invoker *)

Section InvokerFacts.

Variable rt : runtime.

(** The invoker never raises, and what it returns and calls does not depend
    on the state it is entered in. *)
Lemma generate_caption_for_image_returns p m st mt :
  ∃ v cs,
    (∀ s, generate_caption_for_image rt p m st mt s = (inr v, add_calls cs s)) ∧
    (cs = [Dispatched p m] ∧ (∃ e, build_cmd rt (str_of_path p) m st mt = inl e)
     ∨ ∃ cmd, cs = [Dispatched p m; Spawned p cmd 120] ∧
              build_cmd rt (str_of_path p) m st mt = inr cmd).
Proof.
  unfold generate_caption_for_image, try_except, mbind, M_bind, record_call, modify, lift.
  destruct (build_cmd rt (str_of_path p) m st mt) as [e|cmd] eqn:Hcmd; simpl.
  - exists (PyStr (match e with TimeoutExpired _ => py "Error: Caption generation timed out"
                     | _ => py "Error: " ++ str_of_exn e end)), [Dispatched p m].
    split; [intros s; destruct e; reflexivity | left; eauto].
  - unfold run_subprocess, mbind, M_bind, record_call, modify, lift; simpl.
    assert (Hok : ∀ v, ∃ v' cs,
               (∀ s, (inr v : exn + pyval,
                 mkState (files s) (printed s) (processed_files s) (skipped_files s)
                   (failed_files s) ((calls s ++ [Dispatched p m]) ++ [Spawned p cmd 120]))
               = (inr v', add_calls cs s)) ∧
               (cs = [Dispatched p m] ∧ (∃ e, @inr exn _ cmd = inl e)
                ∨ ∃ cmd', cs = [Dispatched p m; Spawned p cmd' 120] ∧
                          @inr exn _ cmd = inr cmd')).
    { intros v. exists v, [Dispatched p m; Spawned p cmd 120]. split; [|eauto].
      intros s. unfold add_calls. by rewrite <- app_assoc. }
    destruct (subprocess_run rt cmd 120) as [e|result]; simpl.
    + destruct e; apply Hok.
    + unfold read_result.
      destruct (returncode result =? 0)%Z; [|apply Hok].
      destruct (bool_decide (m = py "florence-2")); [|apply Hok].
      destruct (json_loads rt (strip (stdout result))) as [e|response]; simpl.
      * destruct e; apply Hok.
      * unfold lift. destruct (response_get _ _ _) as [e|v]; simpl; [destruct e|]; apply Hok.
Qed.

Lemma generate_caption_for_image_eq p m st mt s :
  generate_caption_for_image rt p m st mt s =
    (inr (invoker_answer rt p m st mt), add_calls (invoker_calls rt p m st mt) s).
Proof.
  destruct (generate_caption_for_image_returns p m st mt) as (v & cs & H & _).
  unfold invoker_answer, invoker_calls. by rewrite !H.
Qed.

Lemma invoker_calls_cases p m st mt :
  invoker_calls rt p m st mt = [Dispatched p m] ∧
    (∃ e, build_cmd rt (str_of_path p) m st mt = inl e)
  ∨ ∃ cmd, invoker_calls rt p m st mt = [Dispatched p m; Spawned p cmd 120] ∧
           build_cmd rt (str_of_path p) m st mt = inr cmd.
Proof.
  destruct (generate_caption_for_image_returns p m st mt) as (v & cs & H & Hcs).
  unfold invoker_calls. rewrite H. exact Hcs.
Qed.

Ltac run_invoker :=
  unfold invoker_answer, generate_caption_for_image, run_subprocess, try_except,
    mbind, M_bind, mret, M_ret, record_call, modify, lift; cbv beta iota.

Lemma build_cmd_unsupported image_str m st mt :
  m ∉ MODEL_CHOICES →
  build_cmd rt image_str m st mt = inl (ValueError (py "Unsupported model: " ++ m)).
Proof.
  unfold MODEL_CHOICES. rewrite !not_elem_of_cons.
  intros (H1 & H2 & H3 & H4 & H5 & _). unfold build_cmd.
  rewrite (bool_decide_eq_false_2 (m ∈ _)).
  2:{ rewrite !not_elem_of_cons. auto using not_elem_of_nil. }
  by rewrite !bool_decide_eq_false_2.
Qed.

Lemma build_cmd_supported image_str m st mt :
  m ∈ MODEL_CHOICES → ∃ cmd, build_cmd rt image_str m st mt = inr cmd.
Proof.
  unfold MODEL_CHOICES. rewrite !elem_of_cons, elem_of_nil.
  intros [->|[->|[->|[->|[->|[]]]]]]; vm_compute; eauto.
Qed.

Lemma invoker_answer_no_cmd p m st mt e :
  build_cmd rt (str_of_path p) m st mt = inl (ValueError e) →
  invoker_answer rt p m st mt = PyStr (py "Error: " ++ e) ∧
  invoker_calls rt p m st mt = [Dispatched p m].
Proof.
  intros Hcmd. unfold invoker_calls. run_invoker. by rewrite Hcmd.
Qed.


Lemma invoker_answer_plain p m st mt cmd result :
  build_cmd rt (str_of_path p) m st mt = inr cmd →
  subprocess_run rt cmd 120 = inr result →
  returncode result = 0%Z →
  m ≠ py "florence-2" →
  invoker_answer rt p m st mt = PyStr (strip (stdout result)).
Proof.
  intros Hcmd Hrun Hrc Hm. run_invoker. rewrite Hcmd. cbv beta iota. rewrite Hrun. cbv beta iota.
  unfold read_result. rewrite Hrc. cbv beta iota. by rewrite bool_decide_eq_false_2.
Qed.

Lemma invoker_answer_malformed p st mt cmd result msg :
  build_cmd rt (str_of_path p) (py "florence-2") st mt = inr cmd →
  subprocess_run rt cmd 120 = inr result →
  returncode result = 0%Z →
  json_loads rt (strip (stdout result)) = inl (JSONDecodeError msg) →
  invoker_answer rt p (py "florence-2") st mt = PyStr (strip (stdout result)).
Proof.
  intros Hcmd Hrun Hrc Hjs. run_invoker. rewrite Hcmd. cbv beta iota. rewrite Hrun. cbv beta iota.
  unfold read_result. rewrite Hrc. cbv beta iota. rewrite bool_decide_eq_true_2 by done.
  by rewrite Hjs.
Qed.

Lemma invoker_answer_object p st mt cmd result items :
  build_cmd rt (str_of_path p) (py "florence-2") st mt = inr cmd →
  subprocess_run rt cmd 120 = inr result →
  returncode result = 0%Z →
  json_loads rt (strip (stdout result)) = inr (PyDict items) →
  invoker_answer rt p (py "florence-2") st mt =
    from_option id (PyStr (py "No caption generated")) (dict_lookup (py "caption") items).
Proof.
  intros Hcmd Hrun Hrc Hjs. run_invoker. rewrite Hcmd. cbv beta iota. rewrite Hrun. cbv beta iota.
  unfold read_result. rewrite Hrc. cbv beta iota. rewrite bool_decide_eq_true_2 by done.
  by rewrite Hjs.
Qed.

Lemma invoker_answer_exit_error p m st mt cmd result :
  build_cmd rt (str_of_path p) m st mt = inr cmd →
  subprocess_run rt cmd 120 = inr result →
  returncode result ≠ 0%Z →
  ∃ msg, invoker_answer rt p m st mt = PyStr (py "Error: " ++ msg).
Proof.
  intros Hcmd Hrun Hrc. run_invoker. rewrite Hcmd. cbv beta iota. rewrite Hrun. cbv beta iota.
  unfold read_result. apply Z.eqb_neq in Hrc. rewrite Hrc. eauto.
Qed.

End InvokerFacts.

(** ** The caption store *)

Lemma put_put fs p text text' : put (put fs p text) p text' = put fs p text'.
Proof.
  unfold put. destruct (fs !! parent p) as [d|] eqn:Hd; [|by rewrite Hd].
  rewrite lookup_insert_eq. by rewrite !insert_insert_eq.
Qed.

Lemma save_caption_locked p text tmpl s :
  writable_at (files s) p = false →
  ∃ e, save_caption p text tmpl s = (inl e, add_calls [Saved p text] s).
Proof.
  unfold writable_at, save_caption, open_w, mbind, M_bind, record_call, modify.
  cbv beta iota. simpl files.
  destruct (files s !! parent p) as [d|]; [|eauto].
  destruct (d !! caption_name p) as [[c []|]|]; intros; try discriminate; eauto.
Qed.

Lemma open_w_writable p s :
  writable_at (files s) p = true →
  open_w (parent p) (caption_name p) s = (inr tt, set_files (put (files s) p []) s).
Proof.
  unfold writable_at, open_w, put.
  destruct (files s !! parent p) as [d|]; [|done].
  destruct (d !! caption_name p) as [[c []|]|]; intros; try discriminate; eauto.
Qed.

Lemma save_caption_written p text tmpl s :
  writable_at (files s) p = true →
  utf8_encodable (final_caption text tmpl) = true →
  save_caption p text tmpl s =
    (inr tt, set_files (put (files s) p (final_caption text tmpl)) (add_calls [Saved p text] s)).
Proof.
  intros Hw Henc.
  unfold save_caption, mbind, M_bind, record_call, modify. cbv beta iota.
  rewrite (open_w_writable p (mkState _ _ _ _ _ _)) by exact Hw.
  unfold write. rewrite Henc. simpl files.
  pose proof (put_put (files s) p [] (final_caption text tmpl)) as Hpp.
  unfold put at 1 in Hpp. unfold writable_at in Hw.
  destruct (put (files s) p [] !! parent p) as [d'|] eqn:Hd'.
  - by rewrite Hpp.
  - exfalso. unfold put in Hd'. destruct (files s !! parent p); [|done].
    by rewrite lookup_insert_eq in Hd'.
Qed.

Lemma save_caption_truncated p text tmpl s :
  writable_at (files s) p = true →
  utf8_encodable (final_caption text tmpl) = false →
  ∃ e, save_caption p text tmpl s =
    (inl e, set_files (put (files s) p []) (add_calls [Saved p text] s)).
Proof.
  intros Hw Henc.
  unfold save_caption, mbind, M_bind, record_call, modify. cbv beta iota.
  rewrite (open_w_writable p (mkState _ _ _ _ _ _)) by exact Hw.
  unfold write. rewrite Henc. eauto.
Qed.

(** ** One turn of the loop *)

Section StepFacts.

Variable rt : runtime.

Ltac same_state :=
  unfold add_calls, set_files, tally; simpl;
  rewrite ?app_nil_r, <- ?app_assoc; reflexivity.

(** A turn never raises, and its whole effect on the state is this. *)
Lemma process_image_eq args total_files i p s :
  process_image rt args total_files i p s =
    (inr tt,
     mkState (step_files rt args p s)
             (printed s ++ step_events rt args total_files i p s)
             (processed_files s ++ tally (step_verdict rt args p s) Succeeded (name p))
             (skipped_files s ++ tally (step_verdict rt args p s) Skipped (name p))
             (failed_files s ++ tally (step_verdict rt args p s) Failed (name p))
             (calls s ++ step_calls rt args p s)).
Proof.
  unfold step_files, step_events, step_verdict, step_calls, skips, answer.
  unfold process_image, try_except, mbind, M_bind, mret, M_ret, caption_exists, gets.
  destruct (overwrite args); cbv beta iota; cbn [negb andb];
    [|fold (has_caption (files s) p); destruct (has_caption (files s) p);
      cbv beta iota; cbn [negb andb]].
  2:{ unfold skipped_append, print, modify. cbv beta iota. same_state. }
  all: unfold print at 1; unfold modify; cbv beta iota.
  all: rewrite generate_caption_for_image_eq.
  all: destruct (invoker_answer rt p (model args) (style args) (max_tokens args))
    as [| | | |text| |];
    try (unfold failed_append, modify; same_state).
  all: fold (usable text).
  all: destruct (usable text); [|unfold failed_append, modify; same_state].
  all: set (s1 := add_calls _ _).
  all: assert (Hfiles : files s1 = files s) by reflexivity.
  all: destruct (writable_at (files s) p) eqn:Hw;
    [destruct (utf8_encodable (final_caption text (template args))) eqn:Henc|].
  all: try (rewrite (save_caption_written p text (template args) s1)
              by (by rewrite ?Hfiles);
            unfold processed_append, print, modify; cbv beta iota; subst s1; same_state).
  all: try (destruct (save_caption_truncated p text (template args) s1) as [e ->];
              [by rewrite Hfiles|done|];
            unfold failed_append, modify; subst s1; same_state).
  all: destruct (save_caption_locked p text (template args) s1) as [e ->];
    [by rewrite Hfiles|];
    unfold failed_append, modify; subst s1; same_state.
Qed.

End StepFacts.

(** ** The whole loop *)

Section RunFacts.

Variable rt : runtime.
Variable args : Args.
Variable total_files : nat.

Lemma process_all_cons i p l s :
  process_all rt args total_files i (p :: l) s =
    process_all rt args total_files (S i) l (process_image rt args total_files i p s).2.
Proof.
  cbn [process_all]. unfold mbind, M_bind. by rewrite process_image_eq.
Qed.

Lemma process_all_total l : ∀ i s, (process_all rt args total_files i l s).1 = inr tt.
Proof.
  induction l as [|p l IH]; intros i s; [done|].
  rewrite process_all_cons. apply IH.
Qed.

Lemma process_all_app l1 l2 : ∀ i s,
  process_all rt args total_files i (l1 ++ l2) s =
    process_all rt args total_files (i + length l1) l2
      (process_all rt args total_files i l1 s).2.
Proof.
  induction l1 as [|p l1 IH]; intros i s; simpl app.
  - by rewrite Nat.add_0_r.
  - rewrite !process_all_cons, IH. simpl length. by rewrite Nat.add_succ_r.
Qed.

(** Whatever holds at the start of the loop and is kept by every turn holds
    at its end. *)
Lemma process_all_invariant (Inv : state → Prop) l :
  (∀ i p s, p ∈ l → Inv s → Inv (process_image rt args total_files i p s).2) →
  ∀ i s, Inv s → Inv (process_all rt args total_files i l s).2.
Proof.
  induction l as [|p l IH]; intros Hstep i s Hs; [done|].
  rewrite process_all_cons. apply IH.
  - intros j q s1 Hq. apply Hstep. by right.
  - apply Hstep; [by left|done].
Qed.

Lemma process_all_split before p after s :
  (process_all rt args total_files 0 (before ++ p :: after) s).2 =
    (process_all rt args total_files (S (length before)) after
       (process_image rt args total_files (length before) p (turn_start rt args total_files before s)).2).2.
Proof. by rewrite process_all_app, process_all_cons. Qed.

End RunFacts.

(** ** What a stretch of the loop can change *)

Lemma lookup_entry_put_ne fs p text d e :
  ¬ (d = parent p ∧ e = caption_name p) →
  lookup_entry (put fs p text) d e = lookup_entry fs d e.
Proof.
  intros Hne. unfold put, lookup_entry.
  destruct (fs !! parent p) as [dir|] eqn:Hdir; [|done].
  destruct (decide (d = parent p)) as [->|Hd].
  - rewrite lookup_insert_eq, Hdir. cbn [mbind option_bind].
    rewrite lookup_insert_ne; [done|]. intros Heq. by apply Hne.
  - by rewrite lookup_insert_ne.
Qed.

Lemma lookup_entry_put_eq fs p text :
  is_Some (fs !! parent p) →
  lookup_entry (put fs p text) (parent p) (caption_name p) = Some (File text true).
Proof.
  intros [dir Hdir]. unfold put, lookup_entry. rewrite Hdir.
  rewrite lookup_insert_eq. cbn [mbind option_bind]. by rewrite lookup_insert_eq.
Qed.

Lemma lookup_entry_put_is_Some fs p text d e :
  is_Some (lookup_entry fs d e) → is_Some (lookup_entry (put fs p text) d e).
Proof.
  intros Hsome.
  destruct (decide (d = parent p ∧ e = caption_name p)) as [[-> ->]|Hne].
  - rewrite lookup_entry_put_eq; [eauto|].
    unfold lookup_entry in Hsome. destruct (fs !! parent p); [eauto|].
    by destruct Hsome.
  - by rewrite lookup_entry_put_ne.
Qed.

Lemma writable_at_is_Some fs p : writable_at fs p = true → is_Some (fs !! parent p).
Proof. unfold writable_at. destruct (fs !! parent p); [eauto|done]. Qed.

Section Frame.

Variable rt : runtime.
Variable args : Args.
Variable total_files : nat.

Lemma grows_refl s : grows [] s s.
Proof.
  exists [], [], [], [], []. rewrite !app_nil_r. repeat split; auto.
  intros d e H. by destruct H.
Qed.

Lemma grows_trans l1 l2 s s1 s2 :
  grows l1 s s1 → grows l2 s1 s2 → grows (l1 ++ l2) s s2.
Proof.
  intros (P1 & S1 & F1 & cs1 & evs1 & HP1 & HS1 & HF1 & Hc1 & He1 & Hperm1 & Hcs1 & Hevs1
          & Hkeep1 & Hch1)
         (P2 & S2 & F2 & cs2 & evs2 & HP2 & HS2 & HF2 & Hc2 & He2 & Hperm2 & Hcs2 & Hevs2
          & Hkeep2 & Hch2).
  exists (P1 ++ P2), (S1 ++ S2), (F1 ++ F2), (cs1 ++ cs2), (evs1 ++ evs2).
  rewrite HP2, HS2, HF2, Hc2, He2, HP1, HS1, HF1, Hc1, He1, <- !app_assoc.
  repeat split; auto.
  - rewrite map_app, <- Hperm1, <- Hperm2. solve_Permutation.
  - apply Forall_app. split.
    + eapply Forall_impl; [exact Hcs1|]. intros c Hc. apply elem_of_app. by left.
    + eapply Forall_impl; [exact Hcs2|]. intros c Hc. apply elem_of_app. by right.
  - by apply Forall_app.
  - intros d e Hne.
    destruct (decide (lookup_entry (files s1) d e = lookup_entry (files s) d e)) as [Heq|Hne1].
    + destruct (Hch2 d e) as (p & c & Hin & Hp); [congruence|].
      exists p, c. split; [|done]. apply elem_of_app. by right.
    + destruct (Hch1 d e Hne1) as (p & c & Hin & Hp).
      exists p, c. split; [|done]. apply elem_of_app. by left.
Qed.

Lemma grows_step i p s : grows [p] s (process_image rt args total_files i p s).2.
Proof.
  rewrite process_image_eq. cbn [snd].
  exists (tally (step_verdict rt args p s) Succeeded (name p)),
         (tally (step_verdict rt args p s) Skipped (name p)),
         (tally (step_verdict rt args p s) Failed (name p)),
         (step_calls rt args p s), (step_events rt args total_files i p s).
  cbn [processed_files skipped_files failed_files calls printed files].
  repeat split; auto.
  - destruct (step_verdict rt args p s); reflexivity.
  - unfold step_calls. destruct (skips args p s); [constructor|].
    apply Forall_app. split.
    + destruct (invoker_calls_cases rt p (model args) (style args) (max_tokens args))
        as [[-> _]|(cmd & -> & _)]; repeat constructor.
    + destruct (answer rt args p) as [| | | |text| |]; try constructor.
      destruct (usable text); repeat constructor.
  - unfold step_events. destruct (skips args p s); [by repeat constructor|].
    constructor; [done|].
    destruct (answer rt args p) as [| | | |text| |]; try constructor.
    destruct (_ && _); by repeat constructor.
  - intros d e. unfold step_files. destruct (skips args p s); [done|].
    destruct (answer rt args p) as [| | | |text| |]; try done.
    destruct (usable text && writable_at (files s) p); [|done].
    apply lookup_entry_put_is_Some.
  - intros d e. unfold step_files, step_calls. destruct (skips args p s); [done|].
    destruct (answer rt args p) as [| | | |text| |]; try done.
    destruct (usable text); [|done]. cbn [andb].
    destruct (writable_at (files s) p); [|done].
    intros Hne. exists p, text. split.
    + apply elem_of_app. right. by left.
    + destruct (decide (d = parent p ∧ e = caption_name p)) as [[-> ->]|Hd]; [done|].
      by rewrite lookup_entry_put_ne in Hne.
Qed.

Lemma process_all_grows l : ∀ i s, grows l s (process_all rt args total_files i l s).2.
Proof.
  induction l as [|p l IH]; intros i s; [apply grows_refl|].
  rewrite process_all_cons.
  change (p :: l) with ([p] ++ l).
  eapply grows_trans; [apply grows_step|apply IH].
Qed.

End Frame.

(** ** Image discovery *)

Lemma str_le_total a : ∀ b, str_le a b = true ∨ str_le b a = true.
Proof.
  induction a as [|x a IH]; intros [|y b]; simpl; auto.
  destruct (N.ltb_spec x y), (N.ltb_spec y x); auto; lia.
Qed.

Lemma str_le_trans a : ∀ b c, str_le a b = true → str_le b c = true → str_le a c = true.
Proof.
  induction a as [|x a IH]; intros [|y b] [|z c]; simpl; auto; try discriminate.
  destruct (N.ltb_spec x y), (N.ltb_spec y x), (N.ltb_spec y z), (N.ltb_spec z y),
    (N.ltb_spec x z), (N.ltb_spec z x); auto; try discriminate; try lia.
  apply IH.
Qed.

#[global] Instance path_le_total : Total path_le.
Proof. intros p q. apply str_le_total. Qed.

#[global] Instance path_le_trans : Transitive path_le.
Proof. intros p q r. apply str_le_trans. Qed.

Lemma is_image_spec n nd :
  is_image (n, nd) = true ↔
  (∃ content w, nd = File content w) ∧ ∃ ext, ext ∈ EXTENSIONS ∧ has_extension n ext.
Proof.
  unfold is_image, has_extension. cbn [fst snd].
  rewrite andb_true_iff, bool_decide_eq_true.
  change IMAGE_EXTENSIONS with ((λ ext, py "." ++ ext) <$> EXTENSIONS).
  rewrite list_elem_of_fmap. split.
  - intros [Hfile (ext & Heq & Hin)]. split; [|eauto].
    destruct nd; [eauto|discriminate].
  - intros [(content & w & ->) (ext & Hin & Heq)]. split; [done|eauto].
Qed.

Lemma find_image_files_found fs dir d :
  fs !! dir = Some d →
  ∃ images,
    find_image_files fs dir = inr images ∧
    StronglySorted path_le images ∧
    NoDup (map name images) ∧
    ∀ p, p ∈ images ↔
      parent p = dir ∧ (∃ content w, d !! name p = Some (File content w)) ∧
      ∃ ext, ext ∈ EXTENSIONS ∧ has_extension (name p) ext.
Proof.
  intros Hd. unfold find_image_files. rewrite Hd. eexists. split; [reflexivity|].
  set (found := filter (λ entry, is_image entry = true) (map_to_list d)).
  split; [apply StronglySorted_merge_sort; apply _|].
  split.
  - rewrite merge_sort_Permutation.
    change (map name (map (λ entry : pystr * node, mkPath dir entry.1) found))
      with (name <$> ((λ entry : pystr * node, mkPath dir entry.1) <$> found)).
    rewrite <- list_fmap_compose.
    change (name ∘ (λ entry : pystr * node, mkPath dir entry.1)) with (@fst pystr node).
    eapply sublist_NoDup; [apply (NoDup_fst_map_to_list d)|].
    apply fmap_sublist, sublist_filter.
  - intros p. rewrite merge_sort_Permutation.
    change (map (λ entry : pystr * node, mkPath dir entry.1) found)
      with ((λ entry : pystr * node, mkPath dir entry.1) <$> found).
    rewrite list_elem_of_fmap. split.
    + intros ([n nd] & -> & [Himg Hin]%list_elem_of_filter). cbn [parent name fst].
      apply elem_of_map_to_list in Hin. apply is_image_spec in Himg.
      destruct Himg as [(content & w & ->) Hext]. eauto 10.
    + intros (<- & (content & w & Hin) & Hext). exists (name p, File content w).
      split; [by destruct p|].
      apply list_elem_of_filter. split.
      * apply is_image_spec. eauto.
      * by apply elem_of_map_to_list.
Qed.

Lemma find_image_files_names fs dir images :
  find_image_files fs dir = inr images →
  NoDup (map name images) ∧ NoDup images ∧ ∀ p, p ∈ images → parent p = dir.
Proof.
  unfold find_image_files. destruct (fs !! dir) as [d|] eqn:Hd; [|discriminate].
  destruct (find_image_files_found fs dir d Hd) as (images' & Heq & _ & Hnames & Hin).
  unfold find_image_files in Heq. rewrite Hd in Heq. intros H.
  assert (images' = images) as -> by congruence.
  split; [done|]. split.
  - by apply (NoDup_fmap_1 name).
  - intros p Hp. by apply Hin.
Qed.

(** ** A run: the [try] block of [main] *)

Section Run.

Variable rt : runtime.
Variable args : Args.

Lemma batch_eq s images :
  find_image_files (files s) (source_folder args) = inr images →
  images ≠ [] →
  batch rt args s =
    (inr tt,
     mkState (files (loop_end rt args images s))
             (printed (loop_end rt args images s)
                ++ [summary_event (loop_end rt args images s) (length images);
                    ProgressEvent (completed_message (loop_end rt args images s)) None])
             (processed_files (loop_end rt args images s))
             (skipped_files (loop_end rt args images s))
             (failed_files (loop_end rt args images s))
             (calls (loop_end rt args images s))).
Proof.
  intros Hfind Hne. unfold batch, mbind, M_bind, gets, lift. cbv beta iota.
  rewrite Hfind. cbv beta iota.
  destruct images as [|p l] eqn:Himages; [done|]. rewrite <- Himages.
  unfold reset_lists, print, modify. cbv beta iota. cbn [files printed calls].
  unfold loop_end, loop_start.
  pose proof (process_all_total rt args (length images) images 0
                (mkState (files s)
                   (printed s ++ [ProgressEvent
                                    (py "Found " ++ str_of_nat (length images)
                                       ++ py " images to process") None])
                   [] [] [] (calls s))) as Htot.
  destruct (process_all rt args (length images) 0 images _) as [r e].
  cbn [fst] in Htot. subst r. cbn [snd]. unfold id.
  by rewrite <- app_assoc.
Qed.

Lemma batch_no_images s :
  find_image_files (files s) (source_folder args) = inr [] →
  batch rt args s =
    (inr tt,
     mkState (files s)
             (printed s ++ [ErrorEvent (py "No image files found in " ++ source_folder args)])
             (processed_files s) (skipped_files s) (failed_files s) (calls s)).
Proof.
  intros Hfind. unfold batch, mbind, M_bind, gets, lift. cbv beta iota.
  by rewrite Hfind.
Qed.

Lemma batch_no_folder s e :
  find_image_files (files s) (source_folder args) = inl e →
  batch rt args s = (inl e, s).
Proof.
  intros Hfind. unfold batch, mbind, M_bind, gets, lift. cbv beta iota.
  by rewrite Hfind.
Qed.

Lemma grows_names l s s' n :
  grows l s s' → n ∉ map name l →
  (n ∈ processed_files s' ↔ n ∈ processed_files s) ∧
  (n ∈ skipped_files s' ↔ n ∈ skipped_files s) ∧
  (n ∈ failed_files s' ↔ n ∈ failed_files s).
Proof.
  intros (P & S & F & cs & evs & -> & -> & -> & _ & _ & Hperm & _) Hn.
  rewrite <- Hperm, !not_elem_of_app in Hn. destruct Hn as (HP & HS & HF).
  rewrite !elem_of_app. tauto.
Qed.

Lemma grows_calls l s s' c :
  grows l s s' → call_image c ∉ l → (c ∈ calls s' ↔ c ∈ calls s).
Proof.
  intros (P & S & F & cs & evs & _ & _ & _ & -> & _ & _ & Hcs & _) Hc.
  rewrite elem_of_app. rewrite Forall_forall in Hcs.
  split; [|tauto]. intros [?|Hin]; [done|]. destruct Hc. by apply Hcs.
Qed.

(** The images of a run have their turn one after the other: what the run
    ends with for an image is what its own turn did. *)
Lemma turn_of_image fs images before img after :
  find_image_files fs (source_folder args) = inr images →
  images = before ++ img :: after →
  let s1 := turn_start rt args (length images) before (loop_start images (initial fs)) in
  let s' := (batch rt args (initial fs)).2 in
  grows before (loop_start images (initial fs)) s1 ∧
  (name img ∈ processed_files s' ↔ step_verdict rt args img s1 = Succeeded) ∧
  (name img ∈ skipped_files s' ↔ step_verdict rt args img s1 = Skipped) ∧
  (name img ∈ failed_files s' ↔ step_verdict rt args img s1 = Failed) ∧
  (∀ c, call_image c = img → (c ∈ calls s' ↔ c ∈ step_calls rt args img s1)).
Proof.
  intros Hfind Himages s1 s'.
  destruct (find_image_files_names _ _ _ Hfind) as (Hnames & Hnodup & _).
  assert (Hne : images ≠ []) by (rewrite Himages; by destruct before).
  subst s1 s'. rewrite (batch_eq (initial fs) images Hfind Hne). cbn [snd].
  cbn [processed_files skipped_files failed_files calls].
  unfold loop_end.
  set (total := length images). set (s0 := loop_start images (initial fs)).
  assert (Hs0 : processed_files s0 = [] ∧ skipped_files s0 = [] ∧ failed_files s0 = []
                ∧ calls s0 = []) by done.
  clearbody total s0. subst images.
  rewrite !process_all_split.
  set (s1 := turn_start rt args total before s0).
  set (s2 := (process_image rt args total (length before) img s1).2).
  set (s3 := (process_all rt args total (S (length before)) after s2).2).
  assert (H01 : grows before s0 s1) by apply process_all_grows.
  assert (H23 : grows after s2 s3) by apply process_all_grows.
  rewrite map_app, map_cons in Hnames.
  apply NoDup_app in Hnames as (_ & Hbefore & Hafter%NoDup_cons).
  apply NoDup_app in Hnodup as (_ & Hbefore' & Hafter'%NoDup_cons).
  assert (Hnb : name img ∉ map name before).
  { intros Hin. apply (Hbefore _ Hin). by left. }
  destruct (grows_names _ _ _ _ H01 Hnb) as (HP1 & HS1 & HF1).
  destruct (grows_names _ _ _ _ H23 (proj1 Hafter)) as (HP3 & HS3 & HF3).
  destruct Hs0 as (HP0 & HS0 & HF0 & Hc0).
  rewrite HP0, elem_of_nil in HP1. rewrite HS0, elem_of_nil in HS1.
  rewrite HF0, elem_of_nil in HF1.
  split; [done|].
  rewrite HP3, HS3, HF3. subst s2. rewrite process_image_eq. cbn [snd].
  cbn [processed_files skipped_files failed_files calls].
  rewrite !elem_of_app, HP1, HS1, HF1, !elem_of_tally.
  split; [tauto|]. split; [tauto|]. split; [tauto|].
  intros c Hc.
  assert (Hc3 : call_image c ∉ after) by (rewrite Hc; apply Hafter').
  assert (Hc1 : call_image c ∉ before).
  { rewrite Hc. intros Hin'. apply (Hbefore' _ Hin'). by left. }
  rewrite (grows_calls _ _ _ _ H23 Hc3).
  rewrite process_image_eq. cbn [snd calls].
  rewrite elem_of_app, (grows_calls _ _ _ _ H01 Hc1), Hc0, elem_of_nil. tauto.
Qed.

End Run.

(** ** Verdicts *)

Lemma classified_unique v w n s s' :
  classified v n s s' → classified w n s s' → v = w.
Proof.
  intros (HP & HS & HF) (HP' & HS' & HF').
  rewrite HP in HP'. rewrite HS in HS'. rewrite HF in HF'.
  apply app_inv_head in HP', HS', HF'. unfold tally in *.
  destruct v, w; try done; repeat case_decide; try done.
Qed.

Lemma process_image_classified rt args total_files i p s :
  classified (step_verdict rt args p s) (name p) s
             (process_image rt args total_files i p s).2.
Proof. rewrite process_image_eq. by repeat split. Qed.

Lemma classified_step_verdict rt args total_files i p s v :
  classified v (name p) s (process_image rt args total_files i p s).2 ↔
  step_verdict rt args p s = v.
Proof.
  split.
  - intros H. eapply classified_unique; [apply process_image_classified|exact H].
  - intros <-. apply process_image_classified.
Qed.

Lemma returns_answer rt args p v : returns rt args p v ↔ answer rt args p = v.
Proof.
  unfold returns, answer. split.
  - intros H. specialize (H (initial ∅)).
    rewrite generate_caption_for_image_eq in H. by injection H.
  - intros <- s. by rewrite generate_caption_for_image_eq.
Qed.

Lemma usable_error msg : usable (py "Error" ++ msg) = false.
Proof. reflexivity. Qed.

Lemma usable_error_colon msg : usable (py "Error: " ++ msg) = false.
Proof. reflexivity. Qed.

(** ** C1: every image is counted once *)

Section Counting.

Variable rt : runtime.
Variable args : Args.

Lemma loop_end_grows images s : grows images (loop_start images s) (loop_end rt args images s).
Proof. apply process_all_grows. Qed.

Lemma batch_lists fs images :
  find_image_files fs (source_folder args) = inr images →
  images ≠ [] →
  processed_files (batch rt args (initial fs)).2
    ++ skipped_files (batch rt args (initial fs)).2
    ++ failed_files (batch rt args (initial fs)).2 ≡ₚ map name images.
Proof.
  intros Hfind Hne. rewrite (batch_eq rt args (initial fs) images Hfind Hne). cbn [snd].
  cbn [processed_files skipped_files failed_files].
  destruct (loop_end_grows images (initial fs))
    as (P & S & F & cs & evs & -> & -> & -> & _ & _ & Hperm & _).
  exact Hperm.
Qed.

End Counting.

(** C1. A run that finds images ends without raising and prints one
    summary, as its last line but one; the three counts of the summary add
    up to [total_files], and every discovered image is in exactly one of
    [processed_files], [skipped_files] and [failed_files] (exactly once). *)
Theorem batch_counts_every_image_once rt args fs images :
  find_image_files fs (source_folder args) = inr images →
  images ≠ [] →
  let s' := (batch rt args (initial fs)).2 in
  (batch rt args (initial fs)).1 = inr tt ∧
  (∃ evs processed skipped failed,
     printed s' = evs ++ [SummaryEvent (length images) processed skipped failed
                            (processed_files s');
                          ProgressEvent (completed_message s') None] ∧
     Forall (λ e, is_summary e = false) evs ∧
     processed = length (processed_files s') ∧
     skipped = length (skipped_files s') ∧
     failed = length (failed_files s') ∧
     (processed + skipped + failed = length images)%nat) ∧
  NoDup (processed_files s' ++ skipped_files s' ++ failed_files s') ∧
  ∀ img, img ∈ images →
    (name img ∈ processed_files s' ∧ (name img ∉ skipped_files s') ∧ name img ∉ failed_files s')
    ∨ ((name img ∉ processed_files s') ∧ name img ∈ skipped_files s' ∧ name img ∉ failed_files s')
    ∨ ((name img ∉ processed_files s') ∧ (name img ∉ skipped_files s') ∧ name img ∈ failed_files s').
Proof.
  intros Hfind Hne s'.
  pose proof (batch_lists rt args fs images Hfind Hne) as Hperm. fold s' in Hperm.
  destruct (find_image_files_names _ _ _ Hfind) as (Hnames & _ & _).
  assert (Hnodup : NoDup (processed_files s' ++ skipped_files s' ++ failed_files s'))
    by (by rewrite Hperm).
  split; [|split; [|split; [exact Hnodup|]]].
  - by rewrite (batch_eq rt args (initial fs) images Hfind Hne).
  - subst s'. rewrite (batch_eq rt args (initial fs) images Hfind Hne) in *.
    cbn [snd processed_files skipped_files failed_files printed] in *.
    destruct (loop_end_grows rt args images (initial fs))
      as (P & S & F & cs & evs & _ & _ & _ & _ & Hevs & _ & _ & Hnosum & _).
    eexists _, _, _, _. split; [reflexivity|].
    split; [|split; [done|split; [done|split; [done|]]]].
    + rewrite Hevs. apply Forall_app. split.
      * cbn. by repeat constructor.
      * eapply Forall_impl; [exact Hnosum|]. by intros e [? _].
    + apply Permutation_length in Hperm.
      rewrite !length_app, length_map in Hperm. lia.
  - intros img Himg.
    assert (Hin : name img ∈ processed_files s' ++ skipped_files s' ++ failed_files s').
    { rewrite Hperm. apply list_elem_of_In, in_map, list_elem_of_In, Himg. }
    apply NoDup_app in Hnodup as (_ & HPS & (_ & HSF & _)%NoDup_app).
    rewrite !elem_of_app in Hin.
    destruct Hin as [HP|[HS|HF]].
    + left. split; [done|]. specialize (HPS _ HP). rewrite not_elem_of_app in HPS. tauto.
    + right; left. split; [|split; [done|by apply HSF]].
      intros HP. specialize (HPS _ HP). rewrite not_elem_of_app in HPS. tauto.
    + right; right. split; [|split; [|done]].
      * intros HP. specialize (HPS _ HP). rewrite not_elem_of_app in HPS. tauto.
      * intros HS. by apply (HSF _ HS).
Qed.

(** ** C3: the skip policy *)

Lemma grows_has_caption l s s' p :
  grows l s s' → has_caption (files s) p = true → has_caption (files s') p = true.
Proof.
  intros (P & S & F & cs & evs & _ & _ & _ & _ & _ & _ & _ & _ & Hkeep & _).
  unfold has_caption. rewrite !bool_decide_eq_true. apply Hkeep.
Qed.

Lemma skips_true rt args p s :
  skips args p s = true →
  step_verdict rt args p s = Skipped ∧ step_calls rt args p s = [] ∧
  step_files rt args p s = files s.
Proof. unfold step_verdict, step_calls, step_files. by intros ->. Qed.

Lemma skips_false rt args p s :
  skips args p s = false →
  step_verdict rt args p s ≠ Skipped ∧
  Dispatched p (model args) ∈ step_calls rt args p s.
Proof.
  unfold step_verdict, step_calls. intros ->. split.
  - destruct (answer rt args p) as [| | | |text| |]; try done. by destruct (_ && _).
  - apply elem_of_app. left.
    destruct (invoker_calls_cases rt p (model args) (style args) (max_tokens args))
      as [[-> _]|(cmd & -> & _)]; by left.
Qed.

Lemma skips_false_spawned rt args p s :
  skips args p s = false →
  model args ∈ MODEL_CHOICES →
  ∃ cmd, Spawned p cmd 120 ∈ step_calls rt args p s.
Proof.
  unfold step_calls. intros -> Hm.
  destruct (build_cmd_supported rt (str_of_path p) _ (style args) (max_tokens args) Hm)
    as (cmd & Hcmd).
  destruct (invoker_calls_cases rt p (model args) (style args) (max_tokens args))
    as [[_ (e & He)]|(cmd' & Hcs & _)]; [congruence|].
  exists cmd'. rewrite Hcs. apply elem_of_app. left. right. by left.
Qed.

(** C3. In a run with overwrite disabled, an image whose sidecar exists
    ends in [skipped_files] only, and no call at all is made for it:
    neither the invoker is entered nor a process spawned nor a caption
    saved. In a run with overwrite enabled, every image is handed to the
    invoker, with or without a sidecar, and none is skipped; for a
    supported model the invoker spawns a process for it. *)
Theorem skip_policy rt args fs images img :
  find_image_files fs (source_folder args) = inr images →
  img ∈ images →
  let s' := (batch rt args (initial fs)).2 in
  (overwrite args = false → has_caption fs img = true →
     name img ∈ skipped_files s' ∧ (name img ∉ processed_files s') ∧
     (name img ∉ failed_files s') ∧ ∀ c, c ∈ calls s' → call_image c ≠ img) ∧
  (overwrite args = true →
     Dispatched img (model args) ∈ calls s' ∧ (name img ∉ skipped_files s') ∧
     (model args ∈ MODEL_CHOICES → ∃ cmd, Spawned img cmd 120 ∈ calls s')).
Proof.
  intros Hfind (before & after & Himages)%list_elem_of_split s'.
  destruct (turn_of_image rt args fs images before img after Hfind Himages)
    as (Hgrow & HP & HS & HF & Hcalls).
  fold s' in HP, HS, HF, Hcalls.
  set (s1 := turn_start rt args (length images) before (loop_start images (initial fs))) in *.
  split.
  - intros Hov Hcap.
    assert (Hskip : skips args img s1 = true).
    { unfold skips. rewrite Hov. cbn [negb andb].
      by apply (grows_has_caption _ _ _ _ Hgrow). }
    destruct (skips_true rt args img s1 Hskip) as (Hv & Hcs & _).
    rewrite HP, HS, HF, Hv. repeat split; try done.
    intros c Hc Himg. apply (Hcalls c Himg) in Hc. rewrite Hcs in Hc.
    by apply elem_of_nil in Hc.
  - intros Hov.
    assert (Hskip : skips args img s1 = false) by (unfold skips; by rewrite Hov).
    destruct (skips_false rt args img s1 Hskip) as (Hv & Hcs).
    split; [by apply (Hcalls (Dispatched img (model args)) eq_refl)|].
    split; [by rewrite HS|].
    intros Hm. destruct (skips_false_spawned rt args img s1 Hskip Hm) as (cmd & Hsp).
    exists cmd. by apply (Hcalls (Spawned img cmd 120) eq_refl).
Qed.

(** ** C4: the timeout *)

Lemma calls_in_run rt args fs images c :
  find_image_files fs (source_folder args) = inr images →
  c ∈ calls (batch rt args (initial fs)).2 →
  call_image c ∈ images.
Proof.
  intros Hfind. destruct images as [|p l] eqn:Himages.
  - rewrite (batch_no_images rt args (initial fs) Hfind). cbn. by intros ?%elem_of_nil.
  - rewrite <- Himages in *.
    rewrite (batch_eq rt args (initial fs) images Hfind) by (by rewrite Himages).
    cbn [snd calls].
    destruct (loop_end_grows rt args images (initial fs))
      as (P & S & F & cs & evs & _ & _ & _ & -> & _ & _ & Hcs & _).
    cbn [loop_start calls initial app]. rewrite Forall_forall in Hcs. apply Hcs.
Qed.


Lemma step_verdict_rejected rt args p s :
  skips args p s = false →
  (∀ text, answer rt args p = PyStr text → usable text = false) →
  step_verdict rt args p s = Failed ∧
  step_calls rt args p s = invoker_calls rt p (model args) (style args) (max_tokens args) ∧
  step_files rt args p s = files s.
Proof.
  intros Hskip Hrej. unfold step_verdict, step_calls, step_files. rewrite Hskip.
  destruct (answer rt args p) as [| | | |text| |]; rewrite ?app_nil_r; try done.
  by rewrite (Hrej text eq_refl), app_nil_r.
Qed.


(** ** C2, C5, C9: what makes a dispatched image succeed *)

Lemma dispatched_verdict rt args total_files i p s :
  skips args p s = false →
  let s' := (process_image rt args total_files i p s).2 in
  (classified Succeeded (name p) s s' ↔
     ∃ text, answer rt args p = PyStr text ∧ usable text = true ∧
             writable_at (files s) p = true ∧
             utf8_encodable (final_caption text (template args)) = true) ∧
  (classified Succeeded (name p) s s' ∨ classified Failed (name p) s s') ∧
  (∀ text, answer rt args p = PyStr text →
     classified Succeeded (name p) s s' →
     lookup_entry (files s') (parent p) (caption_name p)
       = Some (File (final_caption text (template args)) true) ∧
     Saved p text ∈ calls s').
Proof.
  intros Hskip s'.
  assert (Hcl : ∀ v, classified v (name p) s s' ↔ step_verdict rt args p s = v)
    by (intros; apply classified_step_verdict).
  assert (Hs' : files s' = step_files rt args p s ∧
                calls s' = calls s ++ step_calls rt args p s)
    by (subst s'; by rewrite process_image_eq).
  destruct Hs' as [Hf Hc]. rewrite !Hcl, Hf, Hc. clearbody s'.
  assert (Hlast : ∀ text, answer rt args p = PyStr text →
            step_verdict rt args p s = Succeeded →
            lookup_entry (step_files rt args p s) (parent p) (caption_name p)
              = Some (File (final_caption text (template args)) true) ∧
            Saved p text ∈ calls s ++ step_calls rt args p s);
    [|split; [|split; [|intros text Hans Hv%Hcl; by apply Hlast]]].
  all: unfold step_verdict, step_files, step_calls; rewrite Hskip.
  all: destruct (answer rt args p) as [| | | |text| |];
    try done; try (by right); try (split; [done|by intros (? & ? & _)]).
  all: destruct (usable text) eqn:Hu, (writable_at (files s) p) eqn:Hw,
    (utf8_encodable (final_caption text (template args))) eqn:Henc; cbn [andb];
    try done; try (by right); try (by left);
    try (split; [done|intros (? & [= <-] & ? & ? & ?); congruence]).
  - intros ? [= <-] _. split.
    + apply lookup_entry_put_eq. by apply writable_at_is_Some.
    + rewrite !elem_of_app. right. right. by left.
  - split; [intros _; by exists text|done].
Qed.

(** C2, as the code has it. For a dispatched image whose backend process
    exits with code 0, the image ends [Succeeded] iff what the invoker
    returns is a text that is not empty and does not begin with ["Error"],
    and writing the sidecar does not raise (the sidecar can be opened for
    writing and the text to write can be encoded); otherwise it ends
    [Failed]. Outside the JSON backend the returned text is the trimmed
    standard output. When the image ends [Succeeded], [save_caption] was
    entered with that text and the sidecar holds it with the template
    applied. *)
Theorem success_needs_a_usable_caption rt args total_files i p s cmd result :
  skips args p s = false →
  build_cmd rt (str_of_path p) (model args) (style args) (max_tokens args) = inr cmd →
  subprocess_run rt cmd 120 = inr result →
  returncode result = 0%Z →
  let s' := (process_image rt args total_files i p s).2 in
  (model args ≠ py "florence-2" → returns rt args p (PyStr (strip (stdout result)))) ∧
  (classified Succeeded (name p) s s' ↔
     ∃ text, returns rt args p (PyStr text) ∧ usable text = true ∧
             writable_at (files s) p = true ∧
             utf8_encodable (final_caption text (template args)) = true) ∧
  (classified Succeeded (name p) s s' ∨ classified Failed (name p) s s') ∧
  (∀ text, returns rt args p (PyStr text) →
     classified Succeeded (name p) s s' →
     lookup_entry (files s') (parent p) (caption_name p)
       = Some (File (final_caption text (template args)) true) ∧
     Saved p text ∈ calls s').
Proof.
  intros Hskip Hcmd Hrun Hrc s'.
  destruct (dispatched_verdict rt args total_files i p s Hskip) as (Hiff & Hor & Hfile).
  fold s' in Hiff, Hor, Hfile.
  split; [|split; [|split; [done|]]].
  - intros Hm. apply returns_answer. by apply (invoker_answer_plain rt p _ _ _ cmd result).
  - rewrite Hiff.
    split; intros (t & Ht & H); exists t; (split; [by apply returns_answer|done]).
  - intros text Ht%returns_answer. by apply Hfile.
Qed.

(** C5, as the code has it. When the florence-2 backend exits with code 0
    and its trimmed standard output is not parseable as JSON, the invoker
    returns that trimmed output as the caption; the image ends [Succeeded]
    iff this text is not empty, does not begin with ["Error"], and writing
    the sidecar does not raise; otherwise it ends [Failed]. On success the
    sidecar holds the raw text with the template applied. *)
Theorem malformed_json_falls_back_to_raw_text rt args total_files i p s cmd result msg :
  skips args p s = false →
  model args = py "florence-2" →
  build_cmd rt (str_of_path p) (model args) (style args) (max_tokens args) = inr cmd →
  subprocess_run rt cmd 120 = inr result →
  returncode result = 0%Z →
  json_loads rt (strip (stdout result)) = inl (JSONDecodeError msg) →
  let s' := (process_image rt args total_files i p s).2 in
  let text := strip (stdout result) in
  returns rt args p (PyStr text) ∧
  (classified Succeeded (name p) s s' ↔
     usable text = true ∧ writable_at (files s) p = true ∧
     utf8_encodable (final_caption text (template args)) = true) ∧
  (classified Succeeded (name p) s s' ∨ classified Failed (name p) s s') ∧
  (classified Succeeded (name p) s s' →
     lookup_entry (files s') (parent p) (caption_name p)
       = Some (File (final_caption text (template args)) true)).
Proof.
  intros Hskip Hm Hcmd Hrun Hrc Hjs s' text.
  assert (Hans : answer rt args p = PyStr text).
  { unfold answer. rewrite Hm in *. by apply (invoker_answer_malformed rt p _ _ cmd result msg). }
  destruct (dispatched_verdict rt args total_files i p s Hskip) as (Hiff & Hor & Hfile).
  fold s' in Hiff, Hor, Hfile.
  split; [by apply returns_answer|]. split; [|split; [done|]].
  - rewrite Hiff. split.
    + intros (t & Ht & H). rewrite Hans in Ht. by injection Ht as <-.
    + intros H. by exists text.
  - intros Hs. by apply (Hfile text Hans Hs).
Qed.

(** C9, as the code has it. When the florence-2 backend exits with code 0
    and its trimmed standard output parses as a JSON object without a
    [caption] key, the invoker returns ["No caption generated"]; the image
    ends [Succeeded] iff writing the sidecar does not raise, and otherwise
    [Failed]. On success the sidecar holds the placeholder with the template
    applied. *)
Theorem missing_caption_key_gives_placeholder rt args total_files i p s cmd result items :
  skips args p s = false →
  model args = py "florence-2" →
  build_cmd rt (str_of_path p) (model args) (style args) (max_tokens args) = inr cmd →
  subprocess_run rt cmd 120 = inr result →
  returncode result = 0%Z →
  json_loads rt (strip (stdout result)) = inr (PyDict items) →
  dict_lookup (py "caption") items = None →
  let s' := (process_image rt args total_files i p s).2 in
  let text := py "No caption generated" in
  returns rt args p (PyStr text) ∧
  (classified Succeeded (name p) s s' ↔
     writable_at (files s) p = true ∧
     utf8_encodable (final_caption text (template args)) = true) ∧
  (classified Succeeded (name p) s s' ∨ classified Failed (name p) s s') ∧
  (classified Succeeded (name p) s s' →
     lookup_entry (files s') (parent p) (caption_name p)
       = Some (File (final_caption text (template args)) true) ∧
     Saved p text ∈ calls s').
Proof.
  intros Hskip Hm Hcmd Hrun Hrc Hjs Hkey s' text.
  assert (Hans : answer rt args p = PyStr text).
  { unfold answer. rewrite Hm in *.
    rewrite (invoker_answer_object rt p _ _ cmd result items) by done. by rewrite Hkey. }
  destruct (dispatched_verdict rt args total_files i p s Hskip) as (Hiff & Hor & Hfile).
  fold s' in Hiff, Hor, Hfile.
  split; [by apply returns_answer|]. split; [|split; [done|]].
  - rewrite Hiff. split.
    + intros (t & Ht & H). rewrite Hans in Ht. injection Ht as <-. tauto.
    + intros H. by exists text.
  - intros Hs. by apply (Hfile text Hans Hs).
Qed.

(** ** C7: a model outside the supported ones *)

Lemma unsupported_answer rt args p :
  model args ∉ MODEL_CHOICES →
  answer rt args p = PyStr (py "Error: Unsupported model: " ++ model args) ∧
  invoker_calls rt p (model args) (style args) (max_tokens args) = [Dispatched p (model args)].
Proof.
  intros Hm. unfold answer.
  apply (invoker_answer_no_cmd rt p _ _ _ (py "Unsupported model: " ++ model args)).
  by apply build_cmd_unsupported.
Qed.

Lemma unsupported_turn rt args p s :
  model args ∉ MODEL_CHOICES →
  step_verdict rt args p s = (if skips args p s then Skipped else Failed) ∧
  step_calls rt args p s = (if skips args p s then [] else [Dispatched p (model args)]) ∧
  step_files rt args p s = files s.
Proof.
  intros Hm. destruct (unsupported_answer rt args p Hm) as [Hans Hcs].
  destruct (skips args p s) eqn:Hskip.
  - by apply skips_true.
  - destruct (step_verdict_rejected rt args p s Hskip) as (Hv & Hc & Hf).
    + intros text. rewrite Hans. intros [= <-]. apply usable_error_colon.
    + by rewrite Hc, Hcs.
Qed.

Lemma unsupported_invariant rt args total_files fs l : ∀ i s,
  model args ∉ MODEL_CHOICES →
  processed_files s = [] ∧ files s = fs ∧ (overwrite args = true → skipped_files s = []) ∧
  Forall (λ c, is_spawn c = false ∧ is_save c = false) (calls s) →
  let s' := (process_all rt args total_files i l s).2 in
  processed_files s' = [] ∧ files s' = fs ∧ (overwrite args = true → skipped_files s' = []) ∧
  Forall (λ c, is_spawn c = false ∧ is_save c = false) (calls s').
Proof.
  intros i s Hm Hs. cbv zeta.
  apply (process_all_invariant rt args total_files
           (λ s, processed_files s = [] ∧ files s = fs ∧
                 (overwrite args = true → skipped_files s = []) ∧
                 Forall (λ c, is_spawn c = false ∧ is_save c = false) (calls s))); [|done].
  clear i s Hs. intros i p s _ (HP & Hf & HS & Hc).
  rewrite process_image_eq. cbn [snd processed_files files skipped_files calls].
  destruct (unsupported_turn rt args p s Hm) as (-> & -> & ->).
  split; [|split; [done|split]].
  - rewrite HP. by destruct (skips args p s).
  - intros Hov. rewrite (HS Hov). unfold skips. by rewrite Hov.
  - apply Forall_app. split; [done|]. destruct (skips args p s); by repeat constructor.
Qed.

(** C7, as the code has it. For a model outside the supported ones the
    invoker builds no command: it catches its own [ValueError] and returns
    the text ["Error: Unsupported model: ..."], having spawned nothing. In a
    run of the loop with such a model no process is spawned and nothing is
    saved or changed; an image ends [Skipped] when overwrite is disabled and
    its sidecar exists and [Failed] otherwise, so that [failed + skipped]
    is the total, and [failed] is the total when overwrite is enabled. From
    the command line such a run cannot be started: the argument parser
    refuses the model, and the process ends with status 2 having printed
    nothing on standard output. *)
Theorem unsupported_model_fails_dispatched_images rt args fs images :
  model args ∉ MODEL_CHOICES →
  find_image_files fs (source_folder args) = inr images →
  images ≠ [] →
  let s' := (batch rt args (initial fs)).2 in
  (∀ p s, generate_caption_for_image rt p (model args) (style args) (max_tokens args) s
          = (inr (PyStr (py "Error: Unsupported model: " ++ model args)),
             add_calls [Dispatched p (model args)] s)) ∧
  (∀ c, c ∈ calls s' → is_spawn c = false ∧ is_save c = false) ∧
  files s' = fs ∧
  processed_files s' = [] ∧
  (∀ img, img ∈ images →
     (name img ∈ skipped_files s' ↔ overwrite args = false ∧ has_caption fs img = true) ∧
     (name img ∈ failed_files s' ↔ ¬ (overwrite args = false ∧ has_caption fs img = true))) ∧
  (length (failed_files s') + length (skipped_files s') = length images)%nat ∧
  (overwrite args = true → length (failed_files s') = length images) ∧
  main rt args (initial fs) = (2%Z, initial fs).
Proof.
  intros Hm Hfind Hne s'.
  assert (Hinv : ∀ l i, let e := (process_all rt args (length images) i l
                                    (loop_start images (initial fs))).2 in
            processed_files e = [] ∧ files e = fs ∧
            (overwrite args = true → skipped_files e = []) ∧
            Forall (λ c, is_spawn c = false ∧ is_save c = false) (calls e)).
  { intros l i. apply unsupported_invariant; [done|]. by repeat split. }
  pose proof (batch_lists rt args fs images Hfind Hne) as Hperm.
  apply Permutation_length in Hperm. rewrite !length_app, length_map in Hperm.
  fold s' in Hperm.
  destruct (Hinv images 0%nat) as (HP & Hf & HS & Hc).
  assert (Hs' : processed_files s' = [] ∧ files s' = fs ∧
                (overwrite args = true → skipped_files s' = []) ∧
                Forall (λ c, is_spawn c = false ∧ is_save c = false) (calls s')).
  { subst s'. by rewrite (batch_eq rt args (initial fs) images Hfind Hne). }
  destruct Hs' as (HP' & Hf' & HS' & Hc').
  rewrite HP' in Hperm. cbn [length] in Hperm.
  split; [|split; [|split; [done|split; [done|split; [|split; [lia|split]]]]]].
  - intros p s. destruct (unsupported_answer rt args p Hm) as [Hans Hcs].
    rewrite generate_caption_for_image_eq. unfold answer in Hans. by rewrite Hans, Hcs.
  - by apply Forall_forall.
  - intros img (before & after & Himages)%list_elem_of_split.
    destruct (turn_of_image rt args fs images before img after Hfind Himages)
      as (_ & _ & HSk & HFl & _).
    fold s' in HSk, HFl. rewrite HSk, HFl.
    destruct (Hinv before 0%nat) as (_ & Hf1 & _). unfold turn_start.
    set (s1 := (process_all rt args (length images) 0 before
                  (loop_start images (initial fs))).2) in *.
    destruct (unsupported_turn rt args img s1 Hm) as (-> & _).
    unfold skips. rewrite Hf1.
    destruct (overwrite args), (has_caption fs img); cbn; split; split;
      try done; try tauto;
      try (intros [? ?]; discriminate); intros _ [? ?]; discriminate.
  - intros Hov. rewrite (HS' Hov) in Hperm. cbn [length] in Hperm. lia.
  - unfold main, parse_args. by rewrite (bool_decide_eq_false_2 _ Hm).
Qed.

(** ** C10: when the sidecar is written *)

Lemma step_calls_saved rt args p s q text :
  Saved q text ∈ step_calls rt args p s →
  q = p ∧ skips args p s = false ∧ answer rt args p = PyStr text ∧ usable text = true.
Proof.
  unfold step_calls. destruct (skips args p s); [by intros ?%elem_of_nil|].
  rewrite elem_of_app. intros [Hin|Hin].
  - destruct (invoker_calls_cases rt p (model args) (style args) (max_tokens args))
      as [[Hcs _]|(cmd' & Hcs & Hcmd)]; rewrite Hcs in Hin.
    + apply list_elem_of_singleton in Hin. discriminate.
    + rewrite !elem_of_cons, elem_of_nil in Hin.
      destruct Hin as [Hin|[Hin|[]]]; discriminate.
  - destruct (answer rt args p) as [| | | |text'| |]; try by apply elem_of_nil in Hin.
    destruct (usable text') eqn:Hu; [|by apply elem_of_nil in Hin].
    apply list_elem_of_singleton in Hin. by injection Hin as -> ->.
Qed.

Lemma step_verdict_succeeded rt args p s :
  step_verdict rt args p s = Succeeded →
  ∃ text, Saved p text ∈ step_calls rt args p s.
Proof.
  unfold step_verdict, step_calls. destruct (skips args p s); [done|].
  destruct (answer rt args p) as [| | | |text| |]; try done.
  destruct (usable text); [|done]. intros _. exists text.
  apply elem_of_app. right. by left.
Qed.

(** C10, as the code has it. [save_caption] is entered only for an image
    that was dispatched and whose caption is a text that is not empty and
    does not begin with ["Error"]: never for an image that ends [Skipped],
    nor for one that ends [Failed] because its caption was refused. Every
    image that ends [Succeeded] had [save_caption] entered. And a file of
    the folder differs after the run from what it was before only if
    [save_caption] was entered, during the run, for an image whose sidecar
    it is. *)
Theorem sidecars_change_only_through_save rt args fs images :
  find_image_files fs (source_folder args) = inr images →
  let s' := (batch rt args (initial fs)).2 in
  (∀ img text, Saved img text ∈ calls s' →
     img ∈ images ∧ returns rt args img (PyStr text) ∧ usable text = true ∧
     name img ∉ skipped_files s') ∧
  (∀ img, img ∈ images → name img ∈ processed_files s' →
     ∃ text, Saved img text ∈ calls s') ∧
  (∀ d e, lookup_entry (files s') d e ≠ lookup_entry fs d e →
     ∃ img text, img ∈ images ∧ Saved img text ∈ calls s' ∧
                 parent img = d ∧ caption_name img = e).
Proof.
  intros Hfind s'. split; [|split].
  - intros img text Hin.
    pose proof (calls_in_run rt args fs images _ Hfind Hin) as Himg. cbn in Himg.
    split; [done|].
    destruct (list_elem_of_split _ _ Himg) as (before & after & Himages).
    destruct (turn_of_image rt args fs images before img after Hfind Himages)
      as (_ & _ & HS & _ & Hcalls).
    fold s' in HS, Hcalls.
    apply (Hcalls (Saved img text) eq_refl) in Hin.
    apply step_calls_saved in Hin as (_ & Hskip & Hans & Hu).
    split; [by apply returns_answer|]. split; [done|].
    rewrite HS. by apply skips_false.
  - intros img (before & after & Himages)%list_elem_of_split.
    destruct (turn_of_image rt args fs images before img after Hfind Himages)
      as (_ & HP & _ & _ & Hcalls).
    fold s' in HP, Hcalls. rewrite HP.
    intros (text & Hin)%step_verdict_succeeded. exists text.
    by apply (Hcalls (Saved img text) eq_refl).
  - subst s'. destruct images as [|p l] eqn:Himages.
    { rewrite (batch_no_images rt args (initial fs) Hfind). by cbn. }
    rewrite <- Himages in *.
    rewrite (batch_eq rt args (initial fs) images Hfind) by (by rewrite Himages).
    cbn [snd calls files].
    destruct (loop_end_grows rt args images (initial fs))
      as (P & S & F & cs & evs & _ & _ & _ & -> & _ & _ & Hcs & _ & _ & Hch).
    cbn [loop_start initial files calls app] in *.
    intros d e (img & text & Hin & Hd & He)%Hch.
    exists img, text. repeat split; try done.
    rewrite Forall_forall in Hcs. apply (Hcs _ Hin).
Qed.

(** ** C6: a folder without images *)

Lemma main_no_images rt args s :
  parse_args args = Some args →
  find_image_files (files s) (source_folder args) = inr [] →
  main rt args s =
    (0%Z,
     mkState (files s)
             (printed s ++ [ErrorEvent (py "No image files found in " ++ source_folder args)])
             (processed_files s) (skipped_files s) (failed_files s) (calls s)).
Proof.
  intros Hargs Hfind. unfold main. rewrite Hargs.
  by rewrite (batch_no_images rt args s Hfind).
Qed.

(** The other way a run ends with an error line: the outer handler, which
    does call [sys.exit(1)]. *)
Lemma main_no_folder rt args s e :
  parse_args args = Some args →
  find_image_files (files s) (source_folder args) = inl e →
  main rt args s =
    (1%Z,
     mkState (files s)
             (printed s ++ [ErrorEvent (py "Batch caption generation failed: " ++ str_of_exn e)])
             (processed_files s) (skipped_files s) (failed_files s) (calls s)).
Proof.
  intros Hargs Hfind. unfold main. rewrite Hargs.
  by rewrite (batch_no_folder rt args s e Hfind).
Qed.

(** C6. On a folder that exists and holds no image, [main] prints one error
    line and nothing else, makes no call and counts nothing, and then
    returns: the exit status of the process is 0, whereas the handler that
    prints the other error line of the protocol exits with status 1. *)
Theorem no_images_exits_with_status_zero :
  let run := main (stub_runtime hangs) (args_for "florence-2" false) (initial fs_empty) in
  find_image_files fs_empty imgs = inr [] ∧
  printed run.2 = [ErrorEvent (py "No image files found in imgs")] ∧
  calls run.2 = [] ∧
  processed_files run.2 ++ skipped_files run.2 ++ failed_files run.2 = [] ∧
  run.1 = 0%Z ∧
  (main (stub_runtime hangs)
        (mkArgs (py "nowhere") (py "florence-2") (py "detailed") None false 150)
        (initial fs_empty)).1 = 1%Z.
Proof. vm_compute. by repeat split. Qed.

(** ** C8: image discovery *)

(** The order [sorted] uses is the order of names. *)
Lemma str_le_name_before a : ∀ b, str_le a b = true ↔ name_before a b.
Proof.
  induction a as [|x a IH]; intros b.
  - split; [|done]. intros _. left. by exists b.
  - destruct b as [|y b].
    + split; [done|]. intros [[rest Hrest]|(common & x' & y' & a' & b' & _ & Hb & _)].
      * discriminate.
      * by destruct common.
    + cbn [str_le]. destruct (N.ltb_spec x y) as [Hxy|Hxy].
      { split; [|done]. intros _. right. by exists [], x, y, a, b. }
      destruct (N.ltb_spec y x) as [Hyx|Hyx].
      { split; [done|].
        intros [[rest Hrest]|(common & x' & y' & a' & b' & Ha & Hb & Hlt)].
        - injection Hrest as -> _. lia.
        - destruct common as [|c common]; cbn [app] in Ha, Hb.
          + injection Ha as -> _. injection Hb as -> _. lia.
          + injection Ha as -> _. injection Hb as -> _. lia. }
      assert (x = y) as -> by lia. rewrite IH. split.
      * intros [[rest ->]|(common & x' & y' & a' & b' & -> & -> & Hlt)].
        -- left. by exists rest.
        -- right. by exists (y :: common), x', y', a', b'.
      * intros [[rest Hrest]|(common & x' & y' & a' & b' & Ha & Hb & Hlt)].
        -- injection Hrest as ->. left. by exists rest.
        -- destruct common as [|c common]; cbn [app] in Ha, Hb.
           ++ injection Ha as -> _. injection Hb as -> _. lia.
           ++ injection Ha as _ ->. injection Hb as _ ->.
              right. by exists common, x', y', a', b'.
Qed.

Lemma StronglySorted_weaken {A} (R R' : A → A → Prop) l :
  (∀ x y, R x y → R' x y) → StronglySorted R l → StronglySorted R' l.
Proof.
  intros Himpl. induction 1 as [|x l Hl IH Hx]; constructor; [done|].
  eapply Forall_impl; [exact Hx|]. intros y. apply Himpl.
Qed.

(** [lower] compares case-insensitively: a text is taken to a text without
    capitals iff the two are the same when case is ignored. *)
Lemma lower_char_spec a b :
  is_capital b = false → lower_char a = b ↔ same_char_ignoring_case a b.
Proof.
  unfold same_char_ignoring_case, lower_char, is_capital. intros Hb.
  assert (Hb' : b < 65 ∨ 90 < b).
  { apply andb_false_iff in Hb as [H%N.leb_gt|H%N.leb_gt]; lia. }
  assert (Hcap : ∀ c, (65 <=? c) && (c <=? 90) = true ↔ 65 ≤ c ∧ c ≤ 90).
  { intros c. by rewrite andb_true_iff, !N.leb_le. }
  rewrite !Hcap.
  destruct (N.leb_spec 65 a), (N.leb_spec a 90); cbn [andb]; lia.
Qed.

Lemma lower_spec s : ∀ t,
  Forall (λ c, is_capital c = false) t → lower s = t ↔ same_ignoring_case s t.
Proof.
  unfold same_ignoring_case.
  induction s as [|a s IH]; intros t Ht.
  - split.
    + intros <-. constructor.
    + intros H. by inversion H.
  - destruct t as [|b t].
    + split; [done|]. intros H. inversion H.
    + apply Forall_cons in Ht as [Hb Ht]. cbn [lower map]. split.
      * intros [= Hab Hst]. constructor; [by apply lower_char_spec|by apply IH].
      * intros H. inversion H as [|? ? ? ? Hab Hst]; subst.
        apply lower_char_spec in Hab; [|done]. apply IH in Hst; [|done].
        unfold lower in Hst. by rewrite Hab, Hst.
Qed.

(** [rfind] finds the last dot. *)
Lemma rfind_dot_None e : 46 ∉ e → rfind_dot e = None.
Proof.
  induction e as [|c e IH]; [done|].
  rewrite not_elem_of_cons. intros [Hc He]. cbn [rfind_dot]. rewrite (IH He).
  destruct (N.eqb_spec c 46); [congruence|done].
Qed.

Lemma rfind_dot_last base e :
  46 ∉ e → rfind_dot (base ++ 46 :: e) = Some (length base).
Proof.
  intros He. induction base as [|c base IH]; cbn [app rfind_dot length].
  - by rewrite (rfind_dot_None e He).
  - by rewrite IH.
Qed.

Lemma rfind_dot_Some n : ∀ i,
  rfind_dot n = Some i → ∃ base e, n = base ++ 46 :: e ∧ length base = i ∧ 46 ∉ e.
Proof.
  induction n as [|c n IH]; intros i; [done|]. cbn [rfind_dot].
  destruct (rfind_dot n) as [j|] eqn:Hn.
  - intros [= <-]. destruct (IH j eq_refl) as (base & e & -> & <- & He).
    by exists (c :: base), e.
  - destruct (N.eqb_spec c 46) as [->|]; [|done]. intros [= <-].
    exists [], n. split; [done|]. split; [done|].
    clear IH. induction n as [|c n IH]; [apply not_elem_of_nil|].
    cbn [rfind_dot] in Hn. destruct (rfind_dot n); [done|].
    destruct (N.eqb_spec c 46); [done|].
    apply not_elem_of_cons. split; [done|]. by apply IH.
Qed.

(** The suffix pathlib gives a name is its extension with the dot. *)
Lemma path_suffix_extension n e :
  path_suffix n = 46 :: e ↔ extension_of n e.
Proof.
  unfold path_suffix, extension_of. split.
  - destruct (rfind_dot n) as [i|] eqn:Hn; [|done].
    destruct (rfind_dot_Some n i Hn) as (base & e' & -> & <- & He').
    destruct (_ && _) eqn:Hi; [|done].
    apply andb_true_iff in Hi as [Hbase%Nat.ltb_lt Hlen%Nat.ltb_lt].
    rewrite drop_app_length. intros [= <-].
    rewrite length_app in Hlen. cbn [length] in Hlen.
    exists base. split; [done|]. split; [|split; [|done]].
    + intros ->. cbn in Hbase. lia.
    + intros ->. cbn in Hlen. lia.
  - intros (base & -> & Hbase & He & Hdot).
    rewrite (rfind_dot_last base e Hdot).
    replace (0 <? length base)%nat with true
      by (symmetry; apply Nat.ltb_lt; destruct base; [done|cbn; lia]).
    replace (length base <? length (base ++ 46%N :: e) - 1)%nat with true
      by (symmetry; apply Nat.ltb_lt; rewrite length_app; destruct e; [done|cbn; lia]).
    cbn [andb]. by rewrite drop_app_length.
Qed.

Lemma EXTENSIONS_small ext :
  ext ∈ EXTENSIONS → Forall (λ c, is_capital c = false) ext.
Proof.
  unfold EXTENSIONS. rewrite !elem_of_cons, elem_of_nil.
  intros [->|[->|[->|[->|[->|[->|[]]]]]]]; by repeat constructor.
Qed.

(** What the script tests of a name is what the specification asks of it. *)
Lemma is_image_name n :
  (∃ ext, ext ∈ EXTENSIONS ∧ has_extension n ext) ↔ supported_image_name n.
Proof.
  unfold has_extension, supported_image_name.
  change (py ".") with [46]. cbn [app]. split.
  - intros (ext & Hext & Hlow).
    destruct (path_suffix n) as [|c e] eqn:Hsuffix; [done|].
    cbn [lower map] in Hlow. injection Hlow as Hc He.
    assert (c = 46) as ->.
    { unfold lower_char in Hc.
      destruct (N.leb_spec 65 c), (N.leb_spec c 90); cbn [andb] in Hc; lia. }
    exists e, ext. split; [by apply path_suffix_extension|]. split; [done|].
    apply lower_spec; [by apply EXTENSIONS_small|done].
  - intros (e & ext & Hn & Hext & Hsame). exists ext. split; [done|].
    apply path_suffix_extension in Hn. rewrite Hn. cbn [lower map].
    change (lower_char 46) with 46. f_equal.
    apply (lower_spec e ext); [by apply EXTENSIONS_small|done].
Qed.

(** C8. On a folder that does not exist, discovery raises the [ValueError]
    whose message is ["Source folder does not exist: ..."]. On a folder
    that exists it returns, sorted by name and without repetition, exactly
    the paths of the regular files directly inside the folder whose
    extension, compared case-insensitively, is one of jpg, jpeg, png, bmp,
    tiff and webp. *)
Theorem find_image_files_lists_the_images fs dir :
  (fs !! dir = None →
     find_image_files fs dir
       = inl (ValueError (py "Source folder does not exist: " ++ dir))) ∧
  (∀ d, fs !! dir = Some d →
     ∃ images,
       find_image_files fs dir = inr images ∧
       StronglySorted (λ p q, name_before (name p) (name q)) images ∧
       NoDup (map name images) ∧
       ∀ p, p ∈ images ↔
         parent p = dir ∧ (∃ content w, d !! name p = Some (File content w)) ∧
         supported_image_name (name p)).
Proof.
  split.
  - intros Hd. unfold find_image_files. by rewrite Hd.
  - intros d Hd.
    destruct (find_image_files_found fs dir d Hd)
      as (images & Hfind & Hsorted & Hnodup & Hin).
    exists images. split; [done|]. split; [|split; [done|]].
    + eapply StronglySorted_weaken; [|exact Hsorted].
      intros p q. unfold path_le. apply str_le_name_before.
    + intros p. rewrite Hin. by rewrite is_image_name.
Qed.

Example find_image_files_three :
  find_image_files fs_three imgs = inr [a_jpg; b_png; c_webp].
Proof. vm_compute. reflexivity. Qed.

Example template_applied :
  final_caption (py "a cat") (Some (py "Photo of {caption}")) = py "Photo of a cat" ∧
  final_caption (py "a cat") None = py "a cat" ∧
  final_caption (py "a cat") (Some (py "no placeholder")) = py "a cat".
Proof. vm_compute. by repeat split. Qed.

(** ** Runs that separate the code from the specification *)

(** C2 at concrete runs. A backend that exits with code 0 having printed
    nothing returns the empty text, which does not begin with ["Error"], and
    the image ends [Failed]; so does an image with a good caption whose
    sidecar is read-only. *)
Lemma empty_or_unwritable_caption_is_failed :
  (let rt := stub_runtime (says []) in
   let args := args_for "blip" false in
   let s' := (batch rt args (initial fs_one)).2 in
   answer rt args a_jpg = PyStr [] ∧
   startswith (py "Error") [] = false ∧
   failed_files s' = [py "a.jpg"] ∧
   processed_files s' = [] ∧
   List.filter is_save (calls s') = []) ∧
  (let rt := stub_runtime (says (py "a cat")) in
   let args := args_for "blip" true in
   let s' := (batch rt args (initial fs_locked)).2 in
   answer rt args a_jpg = PyStr (py "a cat") ∧
   startswith (py "Error") (py "a cat") = false ∧
   failed_files s' = [py "a.jpg"] ∧
   processed_files s' = [] ∧
   lookup_entry (files s') imgs (py "a.txt") = Some (File (py "old") false)).
Proof. vm_compute. by repeat split. Qed.

(** C5 at concrete runs. The florence-2 backend exits with code 0 and its
    output is not JSON; the raw trimmed output is the caption, and the image
    ends [Failed], once because that output is empty and once because it
    begins with ["Error"]. *)
Lemma malformed_output_can_fail :
  (let rt := stub_runtime (says (py "   ")) in
   let args := args_for "florence-2" false in
   let s' := (batch rt args (initial fs_one)).2 in
   json_loads rt (strip (py "   ")) = inl (JSONDecodeError (py "Expecting value")) ∧
   answer rt args a_jpg = PyStr [] ∧
   failed_files s' = [py "a.jpg"] ∧
   processed_files s' = []) ∧
  (let rt := stub_runtime (says (py "Errors: none, caption: a cat")) in
   let args := args_for "florence-2" false in
   let s' := (batch rt args (initial fs_one)).2 in
   json_loads rt (strip (py "Errors: none, caption: a cat"))
     = inl (JSONDecodeError (py "Expecting value")) ∧
   answer rt args a_jpg = PyStr (py "Errors: none, caption: a cat") ∧
   failed_files s' = [py "a.jpg"] ∧
   processed_files s' = []).
Proof. vm_compute. by repeat split. Qed.

(** C9 at a concrete run. The florence-2 backend exits with code 0 and
    prints the JSON object [{}]; the caption is the placeholder, the sidecar
    is read-only, and the image ends [Failed] with the sidecar as it was. *)
Lemma placeholder_on_locked_sidecar_is_failed :
  let rt := stub_runtime (says (py "{}")) in
  let args := args_for "florence-2" true in
  let s' := (batch rt args (initial fs_locked)).2 in
  json_loads rt (strip (py "{}")) = inr (PyDict []) ∧
  dict_lookup (py "caption") [] = None ∧
  answer rt args a_jpg = PyStr (py "No caption generated") ∧
  failed_files s' = [py "a.jpg"] ∧
  processed_files s' = [] ∧
  lookup_entry (files s') imgs (py "a.txt") = Some (File (py "old") false).
Proof. vm_compute. by repeat split. Qed.

(** C7 at concrete runs. From the command line the model [clip] ends the
    process with status 2 before anything is printed, so there is no
    summary; and the loop run with that model on an image that has its
    caption, overwrite disabled, reports [failed = 0] of [total = 1]. *)
Lemma unsupported_model_without_failed_total :
  main (stub_runtime hangs) (args_for "clip" true) (initial fs_one)
    = (2%Z, initial fs_one) ∧
  (let s' := (batch (stub_runtime hangs) (args_for "clip" false) (initial fs_captioned)).2 in
   List.filter is_summary (printed s') = [SummaryEvent 1 0 1 0 []] ∧
   failed_files s' = [] ∧
   skipped_files s' = [py "a.jpg"]).
Proof. vm_compute. by repeat split. Qed.

(** C10 at concrete runs. With a read-only sidecar, [save_caption] is
    entered for an image that ends [Failed]. With two images that share
    their sidecar name, overwrite enabled, the image [a.png] ends [Failed]
    and [save_caption] is not entered for it, yet its sidecar, which existed
    before the run, holds another text after it: the caption of [a.jpg]. *)
Lemma failed_image_with_save_or_changed_sidecar :
  (let rt := stub_runtime (says (py "a cat")) in
   let s' := (batch rt (args_for "blip" true) (initial fs_locked)).2 in
   failed_files s' = [py "a.jpg"] ∧
   List.filter is_save (calls s') = [Saved a_jpg (py "a cat")]) ∧
  (let rt := stub_runtime (captions_only [py "imgs/a.jpg"] (py "a cat")) in
   let s' := (batch rt (args_for "blip" true) (initial fs_pair)).2 in
   processed_files s' = [py "a.jpg"] ∧
   failed_files s' = [py "a.png"] ∧
   List.filter is_save (calls s') = [Saved a_jpg (py "a cat")] ∧
   caption_name a_png = py "a.txt" ∧
   lookup_entry fs_pair imgs (py "a.txt") = Some (File (py "old") true) ∧
   lookup_entry (files s') imgs (py "a.txt") = Some (File (py "a cat") true)).
Proof. vm_compute. by repeat split. Qed.

(** A caption that cannot be encoded: the JSON backend returns a lone
    surrogate, [save_caption] raises after the sidecar was opened, the image
    ends [Failed] and its old caption is gone. *)
Example failed_save_truncates :
  let rt := stub_runtime (says lone_surrogate_json) in
  let s' := (batch rt (args_for "florence-2" true) (initial fs_captioned)).2 in
  answer rt (args_for "florence-2" true) a_jpg = PyStr [55296] ∧
  failed_files s' = [py "a.jpg"] ∧
  lookup_entry fs_captioned imgs (py "a.txt") = Some (File (py "old") true) ∧
  lookup_entry (files s') imgs (py "a.txt") = Some (File [] true).
Proof. vm_compute. by repeat split. Qed.

(** ** The theorems at concrete runs *)

Ltac by_running := vm_compute; reflexivity.
Ltac by_deciding := refine (bool_decide_unpack _ _); vm_compute; exact I.

(** Three images: the first has its caption, the backend captions the
    second and fails on the third. *)
Lemma batch_counts_every_image_once_witness :
  let args := args_for "blip" false in
  let s' := (batch rt_three args (initial fs_three)).2 in
  find_image_files fs_three (source_folder args) = inr [a_jpg; b_png; c_webp] ∧
  (batch rt_three args (initial fs_three)).1 = inr tt ∧
  NoDup (processed_files s' ++ skipped_files s' ++ failed_files s') ∧
  ((name a_jpg ∈ processed_files s' ∧ (name a_jpg ∉ skipped_files s')
      ∧ name a_jpg ∉ failed_files s')
   ∨ ((name a_jpg ∉ processed_files s') ∧ name a_jpg ∈ skipped_files s'
      ∧ name a_jpg ∉ failed_files s')
   ∨ ((name a_jpg ∉ processed_files s') ∧ (name a_jpg ∉ skipped_files s')
      ∧ name a_jpg ∈ failed_files s')).
Proof.
  intros args s'.
  assert (Hfind : find_image_files fs_three (source_folder args) = inr [a_jpg; b_png; c_webp])
    by by_running.
  assert (Hne : [a_jpg; b_png; c_webp] ≠ []) by discriminate.
  destruct (batch_counts_every_image_once rt_three args fs_three _ Hfind Hne)
    as (Hret & _ & Hnodup & Honce).
  split; [exact Hfind|]. split; [exact Hret|]. split; [exact Hnodup|].
  apply Honce. by_deciding.
Defined.

(** The same folder, once with overwrite disabled and once enabled. *)
Lemma skip_policy_witness :
  let keep := args_for "blip" false in
  let redo := args_for "blip" true in
  find_image_files fs_three imgs = inr [a_jpg; b_png; c_webp] ∧
  a_jpg ∈ [a_jpg; b_png; c_webp] ∧
  has_caption fs_three a_jpg = true ∧
  name a_jpg ∈ skipped_files (batch rt_three keep (initial fs_three)).2 ∧
  (∀ c, c ∈ calls (batch rt_three keep (initial fs_three)).2 → call_image c ≠ a_jpg) ∧
  Dispatched a_jpg (py "blip") ∈ calls (batch rt_three redo (initial fs_three)).2.
Proof.
  intros keep redo.
  assert (Hfind : find_image_files fs_three imgs = inr [a_jpg; b_png; c_webp])
    by by_running.
  assert (Hin : a_jpg ∈ [a_jpg; b_png; c_webp]) by by_deciding.
  assert (Hcap : has_caption fs_three a_jpg = true) by by_running.
  destruct (skip_policy rt_three keep fs_three _ a_jpg Hfind Hin) as (Hkeep & _).
  destruct (skip_policy rt_three redo fs_three _ a_jpg Hfind Hin) as (_ & Hredo).
  destruct (Hkeep eq_refl Hcap) as (Hs & _ & _ & Hcalls).
  destruct (Hredo eq_refl) as (Hd & _ & _).
  exact (conj Hfind (conj Hin (conj Hcap (conj Hs (conj Hcalls Hd))))).
Defined.


(** One image and a backend that prints a caption between blanks. *)
Lemma success_needs_a_usable_caption_witness :
  let rt := stub_runtime (says (py " a cat ")) in
  let args := args_for "blip" false in
  let s := initial fs_one in
  let s' := (process_image rt args 1 0 a_jpg s).2 in
  skips args a_jpg s = false ∧
  build_cmd rt (str_of_path a_jpg) (model args) (style args) (max_tokens args)
    = inr (blip_cmd "imgs/a.jpg") ∧
  subprocess_run rt (blip_cmd "imgs/a.jpg") 120 = inr (mkCompleted 0 (py " a cat ") []) ∧
  classified Succeeded (name a_jpg) s s' ∧
  lookup_entry (files s') imgs (py "a.txt") = Some (File (py "a cat") true).
Proof.
  intros rt args s s'.
  assert (Hskip : skips args a_jpg s = false) by by_running.
  assert (Hcmd : build_cmd rt (str_of_path a_jpg) (model args) (style args) (max_tokens args)
                 = inr (blip_cmd "imgs/a.jpg")) by by_running.
  assert (Hrun : subprocess_run rt (blip_cmd "imgs/a.jpg") 120
                 = inr (mkCompleted 0 (py " a cat ") [])) by reflexivity.
  destruct (success_needs_a_usable_caption rt args 1 0 a_jpg s _ _ Hskip Hcmd Hrun eq_refl)
    as (Hplain & Hiff & _ & Hfile).
  assert (Hans : returns rt args a_jpg (PyStr (py "a cat"))).
  { apply Hplain. by_deciding. }
  assert (Hs : classified Succeeded (name a_jpg) s s').
  { apply Hiff. exists (py "a cat"). split; [exact Hans|].
    split; [by_running|]. split; by_running. }
  exact (conj Hskip (conj Hcmd (conj Hrun (conj Hs (proj1 (Hfile _ Hans Hs)))))).
Defined.

(** The JSON backend prints plain text. *)
Lemma malformed_json_falls_back_to_raw_text_witness :
  let rt := stub_runtime (says (py "a cat on a mat")) in
  let args := args_for "florence-2" false in
  let s := initial fs_one in
  let s' := (process_image rt args 1 0 a_jpg s).2 in
  skips args a_jpg s = false ∧
  build_cmd rt (str_of_path a_jpg) (model args) (style args) (max_tokens args)
    = inr (florence_cmd "imgs/a.jpg") ∧
  json_loads rt (strip (py "a cat on a mat")) = inl (JSONDecodeError (py "Expecting value")) ∧
  returns rt args a_jpg (PyStr (py "a cat on a mat")) ∧
  classified Succeeded (name a_jpg) s s' ∧
  lookup_entry (files s') imgs (py "a.txt") = Some (File (py "a cat on a mat") true).
Proof.
  intros rt args s s'.
  assert (Hskip : skips args a_jpg s = false) by by_running.
  assert (Hcmd : build_cmd rt (str_of_path a_jpg) (model args) (style args) (max_tokens args)
                 = inr (florence_cmd "imgs/a.jpg")) by by_running.
  assert (Hrun : subprocess_run rt (florence_cmd "imgs/a.jpg") 120
                 = inr (mkCompleted 0 (py "a cat on a mat") [])) by reflexivity.
  assert (Hjs : json_loads rt (strip (py "a cat on a mat"))
                = inl (JSONDecodeError (py "Expecting value"))) by by_running.
  destruct (malformed_json_falls_back_to_raw_text rt args 1 0 a_jpg s _ _ _
              Hskip eq_refl Hcmd Hrun eq_refl Hjs) as (Hans & Hiff & _ & Hfile).
  assert (Hs : classified Succeeded (name a_jpg) s s').
  { apply Hiff. split; [by_running|]. split; by_running. }
  exact (conj Hskip (conj Hcmd (conj Hjs (conj Hans (conj Hs (Hfile Hs)))))).
Defined.

(** The JSON backend prints an empty object; a template is configured. *)
Lemma missing_caption_key_gives_placeholder_witness :
  let rt := stub_runtime (says (py "{}")) in
  let args := mkArgs imgs (py "florence-2") (py "detailed") (Some (py "Photo: {caption}"))
                     false 150 in
  let s := initial fs_one in
  let s' := (process_image rt args 1 0 a_jpg s).2 in
  skips args a_jpg s = false ∧
  json_loads rt (strip (py "{}")) = inr (PyDict []) ∧
  returns rt args a_jpg (PyStr (py "No caption generated")) ∧
  classified Succeeded (name a_jpg) s s' ∧
  lookup_entry (files s') imgs (py "a.txt")
    = Some (File (py "Photo: No caption generated") true).
Proof.
  intros rt args s s'.
  assert (Hskip : skips args a_jpg s = false) by by_running.
  assert (Hcmd : build_cmd rt (str_of_path a_jpg) (model args) (style args) (max_tokens args)
                 = inr (florence_cmd "imgs/a.jpg")) by by_running.
  assert (Hrun : subprocess_run rt (florence_cmd "imgs/a.jpg") 120
                 = inr (mkCompleted 0 (py "{}") [])) by reflexivity.
  assert (Hjs : json_loads rt (strip (py "{}")) = inr (PyDict [])) by by_running.
  destruct (missing_caption_key_gives_placeholder rt args 1 0 a_jpg s _ _ _
              Hskip eq_refl Hcmd Hrun eq_refl Hjs eq_refl) as (Hans & Hiff & _ & Hfile).
  assert (Hs : classified Succeeded (name a_jpg) s s').
  { apply Hiff. split; by_running. }
  exact (conj Hskip (conj Hjs (conj Hans (conj Hs (proj1 (Hfile Hs)))))).
Defined.

(** Three images, the first with its caption, and the model [clip]. *)
Lemma unsupported_model_fails_dispatched_images_witness :
  let rt := stub_runtime hangs in
  let args := args_for "clip" false in
  let s' := (batch rt args (initial fs_three)).2 in
  (model args ∉ MODEL_CHOICES) ∧
  find_image_files fs_three (source_folder args) = inr [a_jpg; b_png; c_webp] ∧
  processed_files s' = [] ∧
  (length (failed_files s') + length (skipped_files s') = 3)%nat ∧
  (∀ c, c ∈ calls s' → is_spawn c = false ∧ is_save c = false) ∧
  main rt args (initial fs_three) = (2%Z, initial fs_three).
Proof.
  intros rt args s'.
  assert (Hm : model args ∉ MODEL_CHOICES) by by_deciding.
  assert (Hfind : find_image_files fs_three (source_folder args) = inr [a_jpg; b_png; c_webp])
    by by_running.
  assert (Hne : [a_jpg; b_png; c_webp] ≠ []) by discriminate.
  destruct (unsupported_model_fails_dispatched_images rt args fs_three _ Hm Hfind Hne)
    as (_ & Hcalls & _ & HP & _ & Hlen & _ & Hmain).
  exact (conj Hm (conj Hfind (conj HP (conj Hlen (conj Hcalls Hmain))))).
Defined.

(** Two images that share their sidecar: the file changed, and a save for
    an image with that sidecar is on record. *)
Lemma sidecars_change_only_through_save_witness :
  let rt := stub_runtime (captions_only [py "imgs/a.jpg"] (py "a cat")) in
  let args := args_for "blip" true in
  let s' := (batch rt args (initial fs_pair)).2 in
  find_image_files fs_pair (source_folder args) = inr [a_jpg; a_png] ∧
  lookup_entry (files s') imgs (py "a.txt") ≠ lookup_entry fs_pair imgs (py "a.txt") ∧
  ∃ img text, img ∈ [a_jpg; a_png] ∧ Saved img text ∈ calls s' ∧
              parent img = imgs ∧ caption_name img = py "a.txt".
Proof.
  intros rt args s'.
  assert (Hfind : find_image_files fs_pair (source_folder args) = inr [a_jpg; a_png])
    by by_running.
  assert (Hne : lookup_entry (files s') imgs (py "a.txt")
                ≠ lookup_entry fs_pair imgs (py "a.txt")) by by_deciding.
  destruct (sidecars_change_only_through_save rt args fs_pair _ Hfind) as (_ & _ & Hch).
  split; [exact Hfind|]. split; [exact Hne|]. exact (Hch _ _ Hne).
Defined.

(** A folder that does not exist, and a folder with an image whose
    extension is in capitals. *)
Lemma find_image_files_lists_the_images_witness :
  fs_three !! py "elsewhere" = None ∧
  find_image_files fs_three (py "elsewhere")
    = inl (ValueError (py "Source folder does not exist: elsewhere")) ∧
  extension_of (py "b.PNG") (py "PNG") ∧
  same_ignoring_case (py "PNG") (py "png") ∧
  ∃ images, find_image_files fs_three imgs = inr images ∧ b_png ∈ images.
Proof.
  set (d := ({[ py "c.webp" := picture; py "a.jpg" := picture; py "b.PNG" := picture;
                py "a.txt" := File (py "old") true; py "notes.txt" := File (py "x") true;
                py ".jpg" := picture; py "album.png" := Dir ]} : folder)).
  assert (Hnone : fs_three !! py "elsewhere" = None) by by_running.
  assert (Hd : fs_three !! imgs = Some d) by apply lookup_singleton_eq.
  assert (Hext : extension_of (py "b.PNG") (py "PNG")).
  { exists (py "b"). split; [reflexivity|]. split; [discriminate|].
    split; [discriminate|]. by_deciding. }
  assert (Hsame : same_ignoring_case (py "PNG") (py "png")).
  { change (Forall2 same_char_ignoring_case [80; 78; 71] [112; 110; 103]).
    repeat (constructor; [right; left; split; reflexivity|]). constructor. }
  assert (Hpng : py "png" ∈ EXTENSIONS) by by_deciding.
  destruct (find_image_files_lists_the_images fs_three (py "elsewhere")) as [Hmissing _].
  destruct (find_image_files_lists_the_images fs_three imgs) as [_ Hfound].
  destruct (Hfound d Hd) as (images & Hfind & _ & _ & Hin).
  split; [exact Hnone|]. split; [exact (Hmissing Hnone)|].
  split; [exact Hext|]. split; [exact Hsame|].
  exists images. split; [exact Hfind|].
  apply Hin. split; [reflexivity|]. split.
  - exists [], true. by_running.
  - exists (py "PNG"), (py "png"). exact (conj Hext (conj Hpng Hsame)).
Defined.

(** * Further properties of the script *)

(** ** The ways a backend fails or answers *)

Ltac unfold_invoker :=
  unfold invoker_answer, generate_caption_for_image, run_subprocess, try_except,
    mbind, M_bind, mret, M_ret, record_call, modify, lift; cbv beta iota.

Lemma invoker_calls_spawned rt p m st mt cmd :
  build_cmd rt (str_of_path p) m st mt = inr cmd →
  invoker_calls rt p m st mt = [Dispatched p m; Spawned p cmd 120].
Proof.
  intros Hcmd.
  destruct (invoker_calls_cases rt p m st mt) as [[_ (e & He)]|(cmd' & -> & Hcmd')];
    congruence.
Qed.

Lemma invoker_answer_exit_code rt p m st mt cmd result :
  build_cmd rt (str_of_path p) m st mt = inr cmd →
  subprocess_run rt cmd 120 = inr result →
  returncode result ≠ 0%Z →
  invoker_answer rt p m st mt =
    PyStr (py "Error: " ++ (if bool_decide (strip (stderr result) = [])
                            then py "Unknown error" else strip (stderr result))).
Proof.
  intros Hcmd Hrun Hrc. unfold_invoker. rewrite Hcmd. cbv beta iota. rewrite Hrun.
  cbv beta iota. unfold read_result. apply Z.eqb_neq in Hrc. by rewrite Hrc.
Qed.

Lemma invoker_answer_raised rt p m st mt cmd e :
  build_cmd rt (str_of_path p) m st mt = inr cmd →
  subprocess_run rt cmd 120 = inl e →
  (∀ msg, e ≠ TimeoutExpired msg) →
  invoker_answer rt p m st mt = PyStr (py "Error: " ++ str_of_exn e).
Proof.
  intros Hcmd Hrun Hne. unfold_invoker. rewrite Hcmd. cbv beta iota. rewrite Hrun.
  cbv beta iota. destruct e; try done. by destruct (Hne msg).
Qed.

Lemma invoker_answer_not_object rt p st mt cmd result v :
  build_cmd rt (str_of_path p) (py "florence-2") st mt = inr cmd →
  subprocess_run rt cmd 120 = inr result →
  returncode result = 0%Z →
  json_loads rt (strip (stdout result)) = inr v →
  (∀ items, v ≠ PyDict items) →
  invoker_answer rt p (py "florence-2") st mt =
    PyStr (py "Error: " ++ py "'" ++ type_name v ++ py "' object has no attribute 'get'").
Proof.
  intros Hcmd Hrun Hrc Hjs Hv. unfold_invoker. rewrite Hcmd. cbv beta iota. rewrite Hrun.
  cbv beta iota. unfold read_result. rewrite Hrc. cbv beta iota.
  rewrite bool_decide_eq_true_2 by done. rewrite Hjs.
  destruct v; try done. by destruct (Hv items).
Qed.

(** A turn whose caption the loop refuses: the image is counted as failed,
    the files stay as they are and nothing is saved. *)
Lemma refused_turn rt args total_files i p s :
  skips args p s = false →
  (∀ text, answer rt args p = PyStr text → usable text = false) →
  let s' := (process_image rt args total_files i p s).2 in
  classified Failed (name p) s s' ∧
  files s' = files s ∧
  calls s' = calls s ++ invoker_calls rt p (model args) (style args) (max_tokens args).
Proof.
  intros Hskip Hrej s'.
  destruct (step_verdict_rejected rt args p s Hskip Hrej) as (Hv & Hc & Hf).
  split; [by apply classified_step_verdict|].
  subst s'. rewrite process_image_eq. cbn [snd files calls]. by rewrite Hc, Hf.
Qed.

(** X1. When the backend process of a dispatched image exits with a code
    other than 0, the invoker returns ["Error: "] followed by the trimmed
    standard error, or by ["Unknown error"] when that is empty; the image
    ends [Failed], no file changes, and the calls of the turn are one entry
    into the invoker and one process. *)
Theorem nonzero_exit_fails_the_image rt args total_files i p s cmd result :
  skips args p s = false →
  build_cmd rt (str_of_path p) (model args) (style args) (max_tokens args) = inr cmd →
  subprocess_run rt cmd 120 = inr result →
  returncode result ≠ 0%Z →
  let s' := (process_image rt args total_files i p s).2 in
  returns rt args p
    (PyStr (py "Error: " ++ (if bool_decide (strip (stderr result) = [])
                             then py "Unknown error" else strip (stderr result)))) ∧
  classified Failed (name p) s s' ∧
  files s' = files s ∧
  calls s' = calls s ++ [Dispatched p (model args); Spawned p cmd 120].
Proof.
  intros Hskip Hcmd Hrun Hrc s'.
  pose proof (invoker_answer_exit_code rt p _ _ _ cmd result Hcmd Hrun Hrc) as Hans.
  split; [by apply returns_answer|].
  rewrite <- (invoker_calls_spawned rt p _ _ _ cmd Hcmd).
  apply refused_turn; [done|].
  intros text. unfold answer. rewrite Hans. intros [= <-]. apply usable_error_colon.
Qed.

(** X2. When [subprocess.run] raises anything but [TimeoutExpired] for a
    dispatched image (the interpreter cannot be started, the output cannot
    be decoded), the invoker does not raise: it returns ["Error: "] followed
    by the message of the exception; the image ends [Failed] and no file
    changes. *)
Theorem spawn_exception_fails_the_image rt args total_files i p s cmd e :
  skips args p s = false →
  build_cmd rt (str_of_path p) (model args) (style args) (max_tokens args) = inr cmd →
  subprocess_run rt cmd 120 = inl e →
  (∀ msg, e ≠ TimeoutExpired msg) →
  let s' := (process_image rt args total_files i p s).2 in
  returns rt args p (PyStr (py "Error: " ++ str_of_exn e)) ∧
  classified Failed (name p) s s' ∧
  files s' = files s ∧
  calls s' = calls s ++ [Dispatched p (model args); Spawned p cmd 120].
Proof.
  intros Hskip Hcmd Hrun Hne s'.
  pose proof (invoker_answer_raised rt p _ _ _ cmd e Hcmd Hrun Hne) as Hans.
  split; [by apply returns_answer|].
  rewrite <- (invoker_calls_spawned rt p _ _ _ cmd Hcmd).
  apply refused_turn; [done|].
  intros text. unfold answer. rewrite Hans. intros [= <-]. apply usable_error_colon.
Qed.

(** X3. When the florence-2 backend exits with code 0 and prints a JSON
    object whose [caption] is a text, the invoker returns that text as it
    is, without trimming it; the image ends [Succeeded] iff the text is not
    empty, does not begin with ["Error"], and writing the sidecar does not
    raise, and the sidecar then holds the text with the template applied. *)
Theorem json_caption_is_used_as_it_is rt args total_files i p s cmd result items text :
  skips args p s = false →
  model args = py "florence-2" →
  build_cmd rt (str_of_path p) (model args) (style args) (max_tokens args) = inr cmd →
  subprocess_run rt cmd 120 = inr result →
  returncode result = 0%Z →
  json_loads rt (strip (stdout result)) = inr (PyDict items) →
  dict_lookup (py "caption") items = Some (PyStr text) →
  let s' := (process_image rt args total_files i p s).2 in
  returns rt args p (PyStr text) ∧
  (classified Succeeded (name p) s s' ↔
     usable text = true ∧ writable_at (files s) p = true ∧
     utf8_encodable (final_caption text (template args)) = true) ∧
  (classified Succeeded (name p) s s' ∨ classified Failed (name p) s s') ∧
  (classified Succeeded (name p) s s' →
     lookup_entry (files s') (parent p) (caption_name p)
       = Some (File (final_caption text (template args)) true)).
Proof.
  intros Hskip Hm Hcmd Hrun Hrc Hjs Hkey s'.
  assert (Hans : answer rt args p = PyStr text).
  { unfold answer. rewrite Hm in *.
    rewrite (invoker_answer_object rt p _ _ cmd result items) by done. by rewrite Hkey. }
  destruct (dispatched_verdict rt args total_files i p s Hskip) as (Hiff & Hor & Hfile).
  fold s' in Hiff, Hor, Hfile.
  split; [by apply returns_answer|]. split; [|split; [done|]].
  - rewrite Hiff. split.
    + intros (t & Ht & H). rewrite Hans in Ht. by injection Ht as <-.
    + intros H. by exists text.
  - intros Hs. by apply (Hfile text Hans Hs).
Qed.

(** X4. When the florence-2 backend exits with code 0 and prints JSON that
    is not an object (a list, a number, a string, [null]), the lookup of
    [caption] raises inside the invoker, which returns ["Error: '<type>'
    object has no attribute 'get'"]; the image ends [Failed] and no file
    changes. *)
Theorem json_that_is_not_an_object_fails rt args total_files i p s cmd result v :
  skips args p s = false →
  model args = py "florence-2" →
  build_cmd rt (str_of_path p) (model args) (style args) (max_tokens args) = inr cmd →
  subprocess_run rt cmd 120 = inr result →
  returncode result = 0%Z →
  json_loads rt (strip (stdout result)) = inr v →
  (∀ items, v ≠ PyDict items) →
  let s' := (process_image rt args total_files i p s).2 in
  returns rt args p
    (PyStr (py "Error: " ++ py "'" ++ type_name v ++ py "' object has no attribute 'get'")) ∧
  classified Failed (name p) s s' ∧
  files s' = files s.
Proof.
  intros Hskip Hm Hcmd Hrun Hrc Hjs Hv s'.
  assert (Hans : answer rt args p =
    PyStr (py "Error: " ++ py "'" ++ type_name v ++ py "' object has no attribute 'get'")).
  { unfold answer. rewrite Hm in *.
    by apply (invoker_answer_not_object rt p _ _ cmd result v). }
  split; [by apply returns_answer|].
  destruct (refused_turn rt args total_files i p s Hskip) as (Hcl & Hf & _); [|done].
  intros text. rewrite Hans. intros [= <-]. apply usable_error_colon.
Qed.

(** X5. When the florence-2 backend exits with code 0 and prints a JSON
    object whose [caption] is not a text (a number, [null], a list, an
    object), the invoker returns that value and the image ends [Failed]:
    [save_caption] is not entered and no file changes. *)
Theorem caption_that_is_not_a_text_fails rt args total_files i p s cmd result items v :
  skips args p s = false →
  model args = py "florence-2" →
  build_cmd rt (str_of_path p) (model args) (style args) (max_tokens args) = inr cmd →
  subprocess_run rt cmd 120 = inr result →
  returncode result = 0%Z →
  json_loads rt (strip (stdout result)) = inr (PyDict items) →
  dict_lookup (py "caption") items = Some v →
  (∀ text, v ≠ PyStr text) →
  let s' := (process_image rt args total_files i p s).2 in
  returns rt args p v ∧
  classified Failed (name p) s s' ∧
  files s' = files s ∧
  calls s' = calls s ++ [Dispatched p (model args); Spawned p cmd 120].
Proof.
  intros Hskip Hm Hcmd Hrun Hrc Hjs Hkey Hv s'.
  assert (Hans : answer rt args p = v).
  { unfold answer. rewrite Hm in *.
    rewrite (invoker_answer_object rt p _ _ cmd result items) by done. by rewrite Hkey. }
  split; [by apply returns_answer|].
  rewrite <- (invoker_calls_spawned rt p _ _ _ cmd Hcmd).
  apply refused_turn; [done|].
  intros text. rewrite Hans. intros ->. by destruct (Hv text).
Qed.

(** ** The exit status *)

(** X6. When the source folder does not exist, [main] prints one line, the
    error event that carries the message of the [ValueError] of discovery,
    and exits with status 1: no summary is printed, no call is made and no
    file changes. *)
Theorem missing_folder_ends_with_one_error_line rt args fs :
  parse_args args = Some args →
  fs !! source_folder args = None →
  main rt args (initial fs) =
    (1%Z,
     mkState fs
       [ErrorEvent (py "Batch caption generation failed: "
                      ++ py "Source folder does not exist: " ++ source_folder args)]
       [] [] [] []).
Proof.
  intros Hargs Hfs.
  rewrite (main_no_folder rt args (initial fs)
             (ValueError (py "Source folder does not exist: " ++ source_folder args)) Hargs).
  - reflexivity.
  - unfold find_image_files. cbn [initial files]. by rewrite Hfs.
Qed.

(** X7. The exit status of [main] is 2 when the argument parser refuses the
    model or the style, 1 when the source folder does not exist, and 0 in
    every other case: a run over an existing folder exits with status 0
    whatever happened to its images, also when all of them failed. *)
Theorem exit_status_of_main rt args fs :
  (main rt args (initial fs)).1 =
    match parse_args args with
    | None => 2%Z
    | Some _ => if decide (is_Some (fs !! source_folder args)) then 0%Z else 1%Z
    end.
Proof.
  unfold main. destruct (parse_args args) as [args'|] eqn:Hargs; [|done].
  assert (args' = args) as ->.
  { unfold parse_args in Hargs. destruct (_ && _); congruence. }
  destruct (fs !! source_folder args) as [d|] eqn:Hfs.
  - rewrite decide_True by eauto.
    destruct (find_image_files_found fs _ d Hfs) as (images & Hfind & _).
    destruct images as [|p l] eqn:Himages.
    + by rewrite (batch_no_images rt args (initial fs) Hfind).
    + by rewrite (batch_eq rt args (initial fs) (p :: l) Hfind).
  - rewrite decide_False by (by intros [? ?]).
    rewrite (batch_no_folder rt args (initial fs)
               (ValueError (py "Source folder does not exist: " ++ source_folder args))).
    + done.
    + unfold find_image_files. cbn [initial files]. by rewrite Hfs.
Qed.

Example all_failed_exits_with_status_zero :
  let run := main (stub_runtime hangs) (args_for "blip" false) (initial fs_three) in
  run.1 = 0%Z ∧
  failed_files run.2 = [py "b.PNG"; py "c.webp"] ∧
  processed_files run.2 = [].
Proof. vm_compute. by repeat split. Qed.

(** ** Options the default model does not read *)

Lemma build_cmd_florence rt image_str st mt :
  build_cmd rt image_str (py "florence-2") st mt =
    inr [sys_executable rt; script rt "generate_florence2_caption.py";
         py "--image_path"; image_str;
         py "--model_id"; py "microsoft/Florence-2-base";
         py "--prompt"; py "<MORE_DETAILED_CAPTION>"].
Proof. reflexivity. Qed.

Lemma process_all_florence rt args st mt total_files l : ∀ i,
  model args = py "florence-2" →
  process_all rt (mkArgs (source_folder args) (model args) st (template args)
                         (overwrite args) mt) total_files i l
  = process_all rt args total_files i l.
Proof.
  intros i Hm. revert i. induction l as [|p l IH]; intros i; [done|].
  cbn [process_all]. rewrite IH. f_equal.
  unfold process_image. cbn [overwrite model style max_tokens template].
  unfold generate_caption_for_image. rewrite Hm. by rewrite !build_cmd_florence.
Qed.

(** X8. With the model florence-2, which is the default, a run does not
    read [--style] and [--max_tokens]: neither reaches the command line of
    the backend, and the run is the same whatever their values. *)
Theorem florence_run_ignores_style_and_max_tokens rt args st mt s :
  model args = py "florence-2" →
  batch rt (mkArgs (source_folder args) (model args) st (template args)
                   (overwrite args) mt) s
  = batch rt args s.
Proof.
  intros Hm. unfold batch, mbind, M_bind, gets, lift. cbv beta iota. cbn [source_folder].
  destruct (find_image_files (files s) (source_folder args)) as [e|[|p l]]; [done..|].
  cbv beta iota zeta. by rewrite (process_all_florence rt args st mt).
Qed.

(** ** Templates *)

Lemma replace_fuel_enough old new : old ≠ [] → ∀ fuel fuel' s,
  (length s ≤ fuel)%nat → (length s ≤ fuel')%nat →
  replace_fuel fuel old new s = replace_fuel fuel' old new s.
Proof.
  intros Hold. induction fuel as [|fuel IH]; intros fuel' s Hf Hf'.
  - destruct s; [|simpl in Hf; lia]. by destruct fuel'.
  - destruct fuel' as [|fuel'].
    { destruct s; [done|simpl in Hf'; lia]. }
    destruct s as [|c s]; [done|]. cbn [replace_fuel].
    destruct (startswith old (c :: s)).
    + f_equal. apply IH.
      * rewrite length_drop. destruct old; [done|]. simpl in *. lia.
      * rewrite length_drop. destruct old; [done|]. simpl in *. lia.
    + f_equal. apply IH; simpl in *; lia.
Qed.

Lemma replace_cons_other old new c s :
  startswith old (c :: s) = false →
  replace old new (c :: s) = c :: replace old new s.
Proof. unfold replace. cbn [length replace_fuel]. by intros ->. Qed.

Lemma startswith_app old rest : startswith old (old ++ rest) = true.
Proof. induction old as [|c old IH]; [done|]. simpl. by rewrite decide_True. Qed.

Lemma replace_here old new rest :
  old ≠ [] → replace old new (old ++ rest) = new ++ replace old new rest.
Proof.
  intros Hold. unfold replace.
  destruct (old ++ rest) as [|c s] eqn:Heq.
  { destruct old; [done|discriminate]. }
  cbn [length replace_fuel]. rewrite <- Heq, startswith_app, drop_app_length.
  f_equal. apply replace_fuel_enough; [done| |done].
  apply (f_equal length) in Heq. rewrite length_app in Heq.
  destruct old; [done|]. simpl in Heq. lia.
Qed.

Lemma replace_absent old new s : contains old s = false → replace old new s = s.
Proof.
  induction s as [|c s IH]; [done|]. cbn [contains].
  intros [Hhere Hrest]%orb_false_iff.
  rewrite replace_cons_other by done. by rewrite IH.
Qed.

Lemma contains_here old a b : contains old (a ++ old ++ b) = true.
Proof.
  induction a as [|c a IH].
  - destruct (old ++ b) eqn:Heq; cbn [app contains]; rewrite <- ?Heq;
      by rewrite startswith_app.
  - cbn [app contains]. rewrite IH. apply orb_true_r.
Qed.

Lemma replace_placeholder_free caption seg rest :
  123 ∉ seg →
  replace (py "{caption}") caption (seg ++ rest)
  = seg ++ replace (py "{caption}") caption rest.
Proof.
  induction seg as [|c seg IH]; [done|].
  intros [Hc Hseg]%not_elem_of_cons. cbn [app].
  rewrite replace_cons_other.
  - by rewrite IH.
  - assert (Hph : py "{caption}" = 123 :: py "caption}") by (vm_compute; reflexivity).
    rewrite Hph. cbn [startswith]. by rewrite decide_False.
Qed.

Lemma replace_segments caption segs last :
  Forall (λ seg, 123 ∉ seg) segs →
  contains (py "{caption}") last = false →
  replace (py "{caption}") caption (segments (py "{caption}") segs last)
  = segments caption segs last.
Proof.
  intros Hsegs Hlast. induction Hsegs as [|seg segs Hseg Hsegs IH]; cbn [segments foldr].
  - by apply replace_absent.
  - rewrite replace_placeholder_free by done.
    rewrite replace_here by done. unfold segments in IH. by rewrite IH.
Qed.

(** X9. A template whose text is cut by the placeholder [{caption}] into
    segments free of any opening brace, the last one free of the
    placeholder, is written with every placeholder replaced by the caption;
    the caption itself is not read again, so that a placeholder inside it
    stays. A template without the placeholder is not used at all: the raw
    caption is written. *)
Theorem template_replaces_every_placeholder caption segs last :
  segs ≠ [] →
  Forall (λ seg, 123 ∉ seg) segs →
  contains (py "{caption}") last = false →
  final_caption caption (Some (segments (py "{caption}") segs last))
    = segments caption segs last ∧
  final_caption caption (Some last) = caption.
Proof.
  intros Hne Hsegs Hlast. unfold final_caption. split.
  - destruct segs as [|seg segs]; [done|].
    assert (Hin : contains (py "{caption}") (segments (py "{caption}") (seg :: segs) last)
                  = true) by apply contains_here.
    rewrite Hin.
    assert (Hnil : segments (py "{caption}") (seg :: segs) last ≠ []).
    { cbn [segments foldr]. by destruct seg. }
    rewrite bool_decide_eq_false_2 by done. cbn [negb andb].
    by apply replace_segments.
  - rewrite Hlast. by rewrite andb_false_r.
Qed.

(** X9 on a caption that holds the placeholder itself. *)
Lemma template_replaces_every_placeholder_witness :
  final_caption (py "a {caption} cat")
    (Some (py "Photo: {caption} (again: {caption})"))
  = py "Photo: a {caption} cat (again: a {caption} cat)".
Proof.
  assert (Hsegs : Forall (λ seg : pystr, 123 ∉ seg) [py "Photo: "; py " (again: "]).
  { repeat constructor; refine (bool_decide_unpack _ _); vm_compute; exact I. }
  exact (proj1 (template_replaces_every_placeholder (py "a {caption} cat")
                  [py "Photo: "; py " (again: "] (py ")")
                  ltac:(discriminate) Hsegs eq_refl)).
Defined.

(** ** Sidecar names *)

Lemma rfind_dot_app a b :
  rfind_dot (a ++ b) =
    match rfind_dot b with
    | Some i => Some (length a + i)%nat
    | None => rfind_dot a
    end.
Proof.
  induction a as [|c a IH]; cbn [app rfind_dot length].
  - by destruct (rfind_dot b).
  - rewrite IH. by destruct (rfind_dot b).
Qed.

Lemma path_suffix_txt st :
  path_suffix (st ++ py ".txt") = if decide (st = []) then [] else py ".txt".
Proof.
  unfold path_suffix. rewrite rfind_dot_app.
  change (rfind_dot (py ".txt")) with (Some 0%nat). cbv beta iota.
  rewrite Nat.add_0_r, length_app. change (length (py ".txt")) with 4%nat.
  destruct st as [|c st]; [done|].
  rewrite decide_False by done.
  replace (0 <? length (c :: st))%nat with true
    by (symmetry; apply Nat.ltb_lt; simpl; lia).
  replace (length (c :: st) <? length (c :: st) + 4 - 1)%nat with true
    by (symmetry; apply Nat.ltb_lt; simpl; lia).
  cbn [andb]. by rewrite drop_app_length.
Qed.

Lemma name_stem_suffix n : n = stem n ++ path_suffix n.
Proof.
  unfold stem, path_suffix. destruct (rfind_dot n) as [i|]; cbn [length].
  - destruct (_ && _) eqn:Hi.
    + apply andb_true_iff in Hi as [_ Hi%Nat.ltb_lt].
      rewrite length_drop.
      replace (length n - (length n - i))%nat with i by lia.
      by rewrite take_drop.
    + cbn [length]. by rewrite Nat.sub_0_r, firstn_all, app_nil_r.
  - by rewrite Nat.sub_0_r, firstn_all, app_nil_r.
Qed.

Lemma caption_name_stem p : caption_name p = stem (name p) ++ py ".txt".
Proof. reflexivity. Qed.

Lemma caption_name_is_no_image p nd : is_image (caption_name p, nd) = false.
Proof.
  unfold is_image. cbn [fst snd]. rewrite caption_name_stem, path_suffix_txt.
  apply andb_false_iff. right. apply bool_decide_eq_false.
  destruct (decide (stem (name p) = [])); refine (bool_decide_unpack _ _);
    vm_compute; exact I.
Qed.

Lemma image_stem_not_empty n ext :
  ext ∈ EXTENSIONS → has_extension n ext → stem n ≠ [] ∧ path_suffix n ≠ [].
Proof.
  unfold has_extension. intros Hext Hn.
  assert (Hsuf : path_suffix n ≠ []).
  { intros Heq. rewrite Heq in Hn. discriminate. }
  split; [|done]. unfold stem. unfold path_suffix in *.
  destruct (rfind_dot n) as [i|]; [|done].
  destruct (_ && _) eqn:Hi; [|done].
  apply andb_true_iff in Hi as [Hi0%Nat.ltb_lt Hi%Nat.ltb_lt].
  rewrite length_drop.
  replace (length n - (length n - i))%nat with i by lia.
  intros Hnil. apply (f_equal length) in Hnil. rewrite length_take in Hnil.
  simpl in Hnil. lia.
Qed.

(** X10. The sidecar of a path is named by its stem followed by [.txt];
    two paths of a folder have the same sidecar iff they have the same
    stem, whatever their extensions. A sidecar name is never the name of an
    image, and for an image (a name with a supported extension) the stem is
    not empty and the sidecar name has the suffix [.txt]. *)
Theorem sidecar_is_named_by_the_stem p q :
  name p = stem (name p) ++ path_suffix (name p) ∧
  caption_name p = stem (name p) ++ py ".txt" ∧
  (caption_name p = caption_name q ↔ stem (name p) = stem (name q)) ∧
  (∀ nd, is_image (caption_name p, nd) = false) ∧
  (∀ ext, ext ∈ EXTENSIONS → has_extension (name p) ext →
     stem (name p) ≠ [] ∧ path_suffix (caption_name p) = py ".txt" ∧
     caption_name p ≠ name p).
Proof.
  split; [apply name_stem_suffix|]. split; [done|]. split; [|split].
  - rewrite !caption_name_stem. split; [apply app_inv_tail|by intros ->].
  - apply caption_name_is_no_image.
  - intros ext Hext Hn.
    destruct (image_stem_not_empty _ _ Hext Hn) as [Hstem Hsuf].
    split; [done|]. rewrite caption_name_stem, path_suffix_txt.
    rewrite decide_False by done. split; [done|].
    intros Heq.
    assert (Himg : is_image (name p, File [] true) = true).
    { apply is_image_spec. split; [by exists [], true|by exists ext]. }
    rewrite <- Heq, <- caption_name_stem in Himg.
    by rewrite caption_name_is_no_image in Himg.
Qed.

(** ** What a run leaves alone *)

Lemma put_dom fs p text d : is_Some (put fs p text !! d) ↔ is_Some (fs !! d).
Proof.
  unfold put. destruct (fs !! parent p) as [dir|] eqn:Hdir; [|done].
  destruct (decide (d = parent p)) as [->|Hd].
  - rewrite lookup_insert_eq, Hdir. split; eauto.
  - by rewrite lookup_insert_ne.
Qed.

Lemma step_files_dom rt args p s d :
  is_Some (step_files rt args p s !! d) ↔ is_Some (files s !! d).
Proof.
  unfold step_files. destruct (skips args p s); [done|].
  destruct (answer rt args p) as [| | | |text| |]; try done.
  destruct (_ && _); [apply put_dom|done].
Qed.

Lemma loop_keeps_folders rt args total_files l : ∀ i s d,
  is_Some (files (process_all rt args total_files i l s).2 !! d) ↔ is_Some (files s !! d).
Proof.
  intros i s d.
  apply (process_all_invariant rt args total_files
           (λ s', is_Some (files s' !! d) ↔ is_Some (files s !! d))); [|done].
  intros j p s1 _ IH. rewrite process_image_eq. cbn [snd files].
  by rewrite step_files_dom.
Qed.

(** The files of a run: the folders that exist stay the same, and an entry
    changes only under the sidecar name of a discovered image for which
    [save_caption] was entered. *)
Lemma run_frame rt args fs :
  let s' := (batch rt args (initial fs)).2 in
  (∀ d, is_Some (files s' !! d) ↔ is_Some (fs !! d)) ∧
  (∀ d e, lookup_entry (files s') d e ≠ lookup_entry fs d e →
     ∃ p text, find_image_files fs (source_folder args) ≠ inr [] ∧
               Saved p text ∈ calls s' ∧ parent p = d ∧ caption_name p = e).
Proof.
  intros s'. subst s'.
  destruct (find_image_files fs (source_folder args)) as [e|images] eqn:Hfind.
  { rewrite (batch_no_folder rt args (initial fs) e Hfind). by split. }
  destruct images as [|p l] eqn:Himages.
  { rewrite (batch_no_images rt args (initial fs) Hfind). by split. }
  rewrite <- Himages in *.
  rewrite (batch_eq rt args (initial fs) images Hfind) by (by rewrite Himages).
  cbn [snd files calls]. split.
  - intros d. unfold loop_end. by rewrite loop_keeps_folders.
  - destruct (loop_end_grows rt args images (initial fs))
      as (P & S & F & cs & evs & _ & _ & _ & -> & _ & _ & _ & _ & _ & Hch).
    cbn [loop_start initial files calls app] in *.
    intros d e (q & text & Hin & Hd & He)%Hch.
    exists q, text. split; [by rewrite Himages|done].
Qed.

Lemma str_le_antisym a : ∀ b, str_le a b = true → str_le b a = true → a = b.
Proof.
  induction a as [|x a IH]; intros [|y b]; simpl; try done.
  destruct (N.ltb_spec x y), (N.ltb_spec y x); try done; try lia.
  intros Hab Hba. assert (x = y) as -> by lia. f_equal. by apply IH.
Qed.

Lemma lookup_entry_dir (fs : filesystem) (dir : pystr) (d : folder) e :
  fs !! dir = Some d → lookup_entry fs dir e = d !! e.
Proof. intros H. unfold lookup_entry. by rewrite H. Qed.

(** Two file systems with the same folders and the same image entries have
    the same discovery. *)
Lemma find_image_files_ext (fs fs' : filesystem) (dir : pystr) :
  (is_Some (fs' !! dir) ↔ is_Some (fs !! dir)) →
  (∀ n nd, is_image (n, nd) = true →
     (lookup_entry fs' dir n = Some nd ↔ lookup_entry fs dir n = Some nd)) →
  find_image_files fs' dir = find_image_files fs dir.
Proof.
  intros Hdom Hsame.
  destruct (fs !! dir) as [d|] eqn:Hd, (fs' !! dir) as [d'|] eqn:Hd'.
  2:{ destruct Hdom as [_ H]. by destruct H; eauto. }
  2:{ destruct Hdom as [H _]. by destruct H; eauto. }
  2:{ unfold find_image_files. by rewrite Hd, Hd'. }
  destruct (find_image_files_found fs dir d Hd) as (l & -> & Hsorted & Hnames & Hin).
  destruct (find_image_files_found fs' dir d' Hd') as (l' & -> & Hsorted' & Hnames' & Hin').
  f_equal. apply (StronglySorted_unique_strong path_le); try done.
  - intros p q Hp Hq Hpq Hqp.
    apply Hin' in Hp as (Hpp & _). apply Hin in Hq as (Hqq & _).
    destruct p as [pp pn], q as [qp qn]. cbn in *. subst.
    f_equal. by apply str_le_antisym.
  - apply NoDup_Permutation.
    + by apply (NoDup_fmap_1 name).
    + by apply (NoDup_fmap_1 name).
    + intros p. rewrite Hin, Hin'.
      split; intros (Hp & (content & w & Hf) & (ext & Hext & Hn));
        (split; [done|split; [|by exists ext]]); exists content, w.
      * rewrite <- (lookup_entry_dir fs dir d) by done.
        apply Hsame; [apply is_image_spec; eauto 10|].
        by rewrite (lookup_entry_dir fs' dir d').
      * rewrite <- (lookup_entry_dir fs' dir d') by done.
        apply Hsame; [apply is_image_spec; eauto 10|].
        by rewrite (lookup_entry_dir fs dir d).
Qed.

Lemma run_keeps_images rt args fs dir n nd :
  is_image (n, nd) = true →
  lookup_entry (files (batch rt args (initial fs)).2) dir n = lookup_entry fs dir n.
Proof.
  intros Himg.
  destruct (decide (lookup_entry (files (batch rt args (initial fs)).2) dir n
                    = lookup_entry fs dir n)) as [|Hne]; [done|].
  destruct (run_frame rt args fs) as [_ Hch].
  destruct (Hch _ _ Hne) as (p & text & _ & _ & _ & <-).
  by rewrite caption_name_is_no_image in Himg.
Qed.

Lemma find_image_files_after_run rt args fs dir :
  find_image_files (files (batch rt args (initial fs)).2) dir = find_image_files fs dir.
Proof.
  apply find_image_files_ext.
  - apply run_frame.
  - intros n nd Himg. by rewrite (run_keeps_images rt args fs dir n nd Himg).
Qed.

(** X11. A run leaves the images alone: every entry of every folder whose
    name is that of an image (a regular file with a supported extension) is
    after the run what it was before, and no such entry is added, because a
    run writes sidecars only and a sidecar name never has a supported
    extension. Discovery after the run therefore returns, for every folder,
    what it returned before. *)
Theorem a_run_leaves_the_images_alone rt args fs :
  let s' := (batch rt args (initial fs)).2 in
  (∀ dir n nd, is_image (n, nd) = true →
     (lookup_entry (files s') dir n = Some nd ↔ lookup_entry fs dir n = Some nd)) ∧
  (∀ dir, find_image_files (files s') dir = find_image_files fs dir).
Proof.
  split.
  - intros dir n nd Himg. by rewrite (run_keeps_images rt args fs dir n nd Himg).
  - intros dir. apply find_image_files_after_run.
Qed.

(** ** Runs seen image by image *)

(** The states a run goes through around the turn of one image. *)
Lemma run_through_image rt args fs images before img after :
  find_image_files fs (source_folder args) = inr images →
  images = before ++ img :: after →
  let s0 := loop_start images (initial fs) in
  let s1 := turn_start rt args (length images) before s0 in
  let s2 := (process_image rt args (length images) (length before) img s1).2 in
  let s' := (batch rt args (initial fs)).2 in
  grows before s0 s1 ∧
  (∃ s3, grows after s2 s3 ∧ files s' = files s3 ∧ calls s' = calls s3 ∧
         processed_files s' = processed_files s3 ∧
         skipped_files s' = skipped_files s3 ∧
         failed_files s' = failed_files s3).
Proof.
  intros Hfind Himages s0 s1 s2 s'.
  assert (Hne : images ≠ []) by (rewrite Himages; by destruct before).
  split; [apply process_all_grows|].
  exists (process_all rt args (length images) (S (length before)) after s2).2.
  split; [apply process_all_grows|].
  subst s'. rewrite (batch_eq rt args (initial fs) images Hfind Hne). cbn [snd].
  cbn [files calls processed_files skipped_files failed_files].
  unfold loop_end. fold s0.
  assert (Hend : (process_all rt args (length images) 0 images s0).2
                 = (process_all rt args (length images) (S (length before)) after s2).2).
  { rewrite Himages at 2. by rewrite process_all_split. }
  by rewrite Hend.
Qed.

Lemma step_succeeded rt args p s :
  step_verdict rt args p s = Succeeded →
  ∃ text, answer rt args p = PyStr text ∧ usable text = true ∧
          lookup_entry (step_files rt args p s) (parent p) (caption_name p)
            = Some (File (final_caption text (template args)) true).
Proof.
  unfold step_verdict, step_files. destruct (skips args p s); [done|].
  destruct (answer rt args p) as [| | | |text| |]; try done.
  destruct (usable text) eqn:Hu; [|done].
  destruct (writable_at (files s) p) eqn:Hw; [|done].
  destruct (utf8_encodable _) eqn:Henc; [|done]. cbn [andb].
  intros _. exists text. repeat split; try done.
  apply lookup_entry_put_eq. by apply writable_at_is_Some.
Qed.

Lemma step_skipped rt args p s :
  step_verdict rt args p s = Skipped ↔ skips args p s = true.
Proof.
  unfold step_verdict. destruct (skips args p s); [done|].
  destruct (answer rt args p) as [| | | |text| |]; try done. by destruct (_ && _).
Qed.

(** An image counted as processed or skipped has its sidecar at the end of
    the run. *)
Lemma captioned_at_end rt args fs images img :
  find_image_files fs (source_folder args) = inr images →
  img ∈ images →
  let s' := (batch rt args (initial fs)).2 in
  name img ∈ processed_files s' ∨ name img ∈ skipped_files s' →
  has_caption (files s') img = true.
Proof.
  intros Hfind (before & after & Himages)%list_elem_of_split s' Hcounted.
  destruct (turn_of_image rt args fs images before img after Hfind Himages)
    as (_ & HP & HS & _ & _).
  destruct (run_through_image rt args fs images before img after Hfind Himages)
    as (_ & s3 & Hgrow & Hfiles & _).
  fold s' in HP, HS, Hfiles. rewrite Hfiles.
  apply (grows_has_caption _ _ _ _ Hgrow).
  set (s1 := turn_start rt args (length images) before (loop_start images (initial fs))) in *.
  rewrite process_image_eq. cbn [snd files]. unfold has_caption.
  apply bool_decide_eq_true.
  destruct Hcounted as [Hin|Hin].
  - apply HP in Hin. destruct (step_succeeded rt args img s1 Hin) as (text & _ & _ & ->).
    eauto.
  - apply HS, step_skipped in Hin.
    destruct (skips_true rt args img s1 Hin) as (_ & _ & ->).
    unfold skips in Hin. apply andb_true_iff in Hin as [_ Hin].
    by apply bool_decide_eq_true in Hin.
Qed.

(** With overwrite disabled an image whose sidecar exists is skipped, and
    no call is made for it. *)
Lemma captioned_image_is_skipped rt args fs images img :
  find_image_files fs (source_folder args) = inr images →
  img ∈ images →
  overwrite args = false →
  has_caption fs img = true →
  let s' := (batch rt args (initial fs)).2 in
  name img ∈ skipped_files s' ∧ ∀ c, c ∈ calls s' → call_image c ≠ img.
Proof.
  intros Hfind (before & after & Himages)%list_elem_of_split Hov Hcap s'.
  destruct (turn_of_image rt args fs images before img after Hfind Himages)
    as (Hgrow & _ & HS & _ & Hcalls).
  fold s' in HS, Hcalls.
  set (s1 := turn_start rt args (length images) before (loop_start images (initial fs))) in *.
  assert (Hskip : skips args img s1 = true).
  { unfold skips. rewrite Hov. cbn [negb andb].
    by apply (grows_has_caption _ _ _ _ Hgrow). }
  destruct (skips_true rt args img s1 Hskip) as (Hv & Hcs & _).
  split; [by rewrite HS|].
  intros c Hc Himg. apply (Hcalls c Himg) in Hc. rewrite Hcs in Hc.
  by apply elem_of_nil in Hc.
Qed.

(** X12. Running again picks up where the last run stopped: in a second run
    over the same folder with overwrite disabled, whatever the model and
    the backends, every image that the first run counted as processed or
    skipped is skipped, and no call is made for it; the second run
    discovers the same images as the first. *)
Theorem second_run_skips_the_captioned_images rt1 rt2 args1 args2 fs images img :
  find_image_files fs (source_folder args1) = inr images →
  img ∈ images →
  source_folder args2 = source_folder args1 →
  overwrite args2 = false →
  let s1 := (batch rt1 args1 (initial fs)).2 in
  let s2 := (batch rt2 args2 (initial (files s1))).2 in
  name img ∈ processed_files s1 ∨ name img ∈ skipped_files s1 →
  find_image_files (files s1) (source_folder args2) = inr images ∧
  name img ∈ skipped_files s2 ∧
  (name img ∉ processed_files s2) ∧
  (∀ c, c ∈ calls s2 → call_image c ≠ img).
Proof.
  intros Hfind Himg Hfolder Hov s1 s2 Hcounted.
  assert (Hfind2 : find_image_files (files s1) (source_folder args2) = inr images).
  { subst s1. by rewrite find_image_files_after_run, Hfolder. }
  pose proof (captioned_at_end rt1 args1 fs images img Hfind Himg Hcounted) as Hcap.
  fold s1 in Hcap.
  destruct (captioned_image_is_skipped rt2 args2 (files s1) images img Hfind2 Himg Hov Hcap)
    as (Hskipped & Hcalls).
  fold s2 in Hskipped, Hcalls.
  split; [done|]. split; [done|]. split; [|done].
  destruct (list_elem_of_split _ _ Himg) as (before & after & Himages).
  destruct (turn_of_image rt2 args2 (files s1) images before img after Hfind2 Himages)
    as (_ & HP & HS & _ & _).
  fold s2 in HP, HS. rewrite HP. apply HS in Hskipped. by rewrite Hskipped.
Qed.

(** ** Sidecars and stems *)

(** With distinct stems, the sidecar of an image is, when its turn starts,
    what it was when the run started. *)
Lemma sidecar_untouched_before_turn rt args fs images before img after :
  find_image_files fs (source_folder args) = inr images →
  images = before ++ img :: after →
  NoDup (map caption_name images) →
  let s1 := turn_start rt args (length images) before (loop_start images (initial fs)) in
  lookup_entry (files s1) (parent img) (caption_name img)
    = lookup_entry fs (parent img) (caption_name img).
Proof.
  intros Hfind Himages Hstems s1.
  destruct (turn_of_image rt args fs images before img after Hfind Himages)
    as (Hgrow & _).
  fold s1 in Hgrow.
  destruct Hgrow as (P & S & F & cs & evs & _ & _ & _ & _ & _ & _ & Hcs & _ & _ & Hchange).
  destruct (decide (lookup_entry (files s1) (parent img) (caption_name img)
                    = lookup_entry fs (parent img) (caption_name img))) as [|Hne]; [done|].
  exfalso. apply Hchange in Hne as (p & c & Hsaved & _ & Hname).
  rewrite Forall_forall in Hcs. apply Hcs in Hsaved. cbn [call_image] in Hsaved.
  rewrite Himages, map_app, map_cons in Hstems.
  apply NoDup_app in Hstems as (_ & Hdisj & _).
  apply (Hdisj (caption_name p)).
  - apply list_elem_of_fmap. by exists p.
  - rewrite Hname. by left.
Qed.

(** With distinct stems, nothing after the turn of an image touches its
    sidecar. *)
Lemma sidecar_untouched_after_turn rt args fs images before img after :
  find_image_files fs (source_folder args) = inr images →
  images = before ++ img :: after →
  NoDup (map caption_name images) →
  let s1 := turn_start rt args (length images) before (loop_start images (initial fs)) in
  lookup_entry (files (batch rt args (initial fs)).2) (parent img) (caption_name img)
    = lookup_entry (step_files rt args img s1) (parent img) (caption_name img).
Proof.
  intros Hfind Himages Hstems s1.
  destruct (run_through_image rt args fs images before img after Hfind Himages)
    as (_ & s3 & Hgrow & -> & _).
  fold s1 in Hgrow. rewrite process_image_eq in Hgrow. cbn [snd] in Hgrow.
  destruct Hgrow as (P & S & F & cs & evs & _ & _ & _ & _ & _ & _ & Hcs & _ & _ & Hchange).
  cbn [files] in Hchange.
  destruct (decide (lookup_entry (files s3) (parent img) (caption_name img)
                    = lookup_entry (step_files rt args img s1) (parent img) (caption_name img)))
    as [|Hne]; [done|].
  exfalso. apply Hchange in Hne as (p & c & Hsaved & _ & Hname).
  rewrite Forall_forall in Hcs. apply Hcs in Hsaved. cbn [call_image] in Hsaved.
  rewrite Himages, map_app, map_cons in Hstems.
  apply NoDup_app in Hstems as (_ & _ & Hstems).
  apply NoDup_cons in Hstems as [Hnotin _].
  apply Hnotin. rewrite <- Hname. apply list_elem_of_fmap. by exists p.
Qed.

(** X13. When no two images of the folder share a stem and none has a
    sidecar, a run skips nothing, whether overwrite is set or not: every
    image ends up processed or failed. *)
Theorem uncaptioned_folder_skips_nothing rt args fs images :
  find_image_files fs (source_folder args) = inr images →
  images ≠ [] →
  NoDup (map caption_name images) →
  (∀ img, img ∈ images → has_caption fs img = false) →
  let s' := (batch rt args (initial fs)).2 in
  skipped_files s' = [] ∧
  (length (processed_files s') + length (failed_files s') = length images)%nat.
Proof.
  intros Hfind Hne Hstems Hnone s'.
  pose proof (batch_lists rt args fs images Hfind Hne) as Hperm. fold s' in Hperm.
  assert (Hskipped : skipped_files s' = []).
  { destruct (skipped_files s') as [|n l] eqn:Hs; [done|]. exfalso.
    assert (Hn : n ∈ map name images).
    { rewrite <- Hperm, !elem_of_app. right; left. by left. }
    apply list_elem_of_fmap in Hn as (img & -> & Himg).
    destruct (list_elem_of_split _ _ Himg) as (before & after & Himages).
    destruct (turn_of_image rt args fs images before img after Hfind Himages)
      as (_ & _ & HS & _).
    fold s' in HS. rewrite Hs in HS.
    assert (Hv : step_verdict rt args img
                   (turn_start rt args (length images) before (loop_start images (initial fs)))
                 = Skipped) by (apply HS; by left).
    apply step_skipped in Hv. unfold skips in Hv.
    apply andb_true_iff in Hv as [_ Hv]. unfold has_caption in Hv.
    rewrite (sidecar_untouched_before_turn rt args fs images before img after
               Hfind Himages Hstems) in Hv.
    specialize (Hnone img Himg). unfold has_caption in Hnone. congruence. }
  split; [done|].
  apply Permutation_length in Hperm.
  rewrite Hskipped, !length_app, length_map in Hperm. simpl in Hperm. lia.
Qed.

(** X14. When no two images of the folder share a stem, the sidecar of
    every image counted as processed holds, at the end of the run, the
    caption the backend gave for that image, put through the template. *)
Theorem processed_image_has_its_caption_on_disk rt args fs images img :
  find_image_files fs (source_folder args) = inr images →
  img ∈ images →
  NoDup (map caption_name images) →
  let s' := (batch rt args (initial fs)).2 in
  name img ∈ processed_files s' →
  ∃ text, answer rt args img = PyStr text ∧
          lookup_entry (files s') (parent img) (caption_name img)
            = Some (File (final_caption text (template args)) true).
Proof.
  intros Hfind Himg Hstems s' Hin.
  destruct (list_elem_of_split _ _ Himg) as (before & after & Himages).
  destruct (turn_of_image rt args fs images before img after Hfind Himages)
    as (_ & HP & _).
  fold s' in HP. apply HP in Hin.
  destruct (step_succeeded rt args img _ Hin) as (text & Hanswer & _ & Hfile).
  exists text. split; [done|]. subst s'.
  by rewrite (sidecar_untouched_after_turn rt args fs images before img after
                Hfind Himages Hstems).
Qed.

(** ** A folder that is already captioned *)

Lemma process_all_captioned rt args total_files l :
  overwrite args = false →
  ∀ i s,
    (∀ img, img ∈ l → has_caption (files s) img = true) →
    let s' := (process_all rt args total_files i l s).2 in
    files s' = files s ∧ calls s' = calls s ∧
    processed_files s' = processed_files s ∧
    failed_files s' = failed_files s ∧
    skipped_files s' = skipped_files s ++ map name l.
Proof.
  intros Hov. induction l as [|p l IH]; intros i s Hcap; cbn zeta.
  - cbn. by rewrite app_nil_r.
  - rewrite process_all_cons.
    assert (Hskip : skips args p s = true).
    { unfold skips. rewrite Hov. cbn [negb andb]. apply Hcap. by left. }
    destruct (skips_true rt args p s Hskip) as (Hv & Hcs & Hfs).
    set (s2 := (process_image rt args total_files i p s).2).
    assert (H2 : files s2 = files s ∧ calls s2 = calls s ∧
                 processed_files s2 = processed_files s ∧
                 failed_files s2 = failed_files s ∧
                 skipped_files s2 = skipped_files s ++ [name p]).
    { subst s2. rewrite process_image_eq. cbn [snd]. cbn.
      rewrite Hv, Hcs, Hfs. unfold tally. cbn. by rewrite !app_nil_r. }
    destruct H2 as (Hf & Hc & HP & HF & HS).
    destruct (IH (S i) s2) as (Hf' & Hc' & HP' & HF' & HS').
    { intros img Himg. rewrite Hf. apply Hcap. by right. }
    rewrite Hf', Hc', HP', HF', HS', Hf, Hc, HP, HF, HS.
    cbn [map]. by rewrite <- app_assoc.
Qed.

(** X15. With overwrite disabled, a run over a folder in which every image
    has its sidecar changes no file and makes no call: every image is
    listed as skipped, in the order of discovery, none as processed or
    failed. *)
Theorem captioned_folder_is_left_as_it_is rt args fs images :
  find_image_files fs (source_folder args) = inr images →
  images ≠ [] →
  overwrite args = false →
  (∀ img, img ∈ images → has_caption fs img = true) →
  let s' := (batch rt args (initial fs)).2 in
  files s' = fs ∧ calls s' = [] ∧
  skipped_files s' = map name images ∧
  processed_files s' = [] ∧ failed_files s' = [].
Proof.
  intros Hfind Hne Hov Hcap s'. subst s'.
  rewrite (batch_eq rt args (initial fs) images Hfind Hne). cbn [snd].
  cbn [files calls processed_files skipped_files failed_files].
  unfold loop_end.
  destruct (process_all_captioned rt args (length images) images Hov 0
              (loop_start images (initial fs)) Hcap)
    as (Hf & Hc & HP & HF & HS).
  by rewrite Hf, Hc, HP, HF, HS.
Qed.

(** ** The order of the lists *)

Lemma tally_sublist v w n : tally v w n `sublist_of` [n].
Proof. unfold tally. destruct (decide (v = w)); [done|]. apply sublist_nil_l. Qed.

Lemma process_all_order rt args total_files l : ∀ i s,
  let s' := (process_all rt args total_files i l s).2 in
  ∃ P S F,
    processed_files s' = processed_files s ++ P ∧
    skipped_files s' = skipped_files s ++ S ∧
    failed_files s' = failed_files s ++ F ∧
    P `sublist_of` map name l ∧ S `sublist_of` map name l ∧ F `sublist_of` map name l.
Proof.
  induction l as [|p l IH]; intros i s; cbn zeta.
  - exists [], [], []. cbn. by rewrite !app_nil_r.
  - rewrite process_all_cons.
    destruct (IH (S i) (process_image rt args total_files i p s).2)
      as (P & S & F & -> & -> & -> & HP & HS & HF).
    rewrite process_image_eq. cbn [snd processed_files skipped_files failed_files].
    eexists _, _, _. rewrite <- !app_assoc.
    split; [reflexivity|]. split; [reflexivity|]. split; [reflexivity|].
    cbn [map]. change (name p :: map name l) with ([name p] ++ map name l).
    split; [|split]; (apply sublist_app; [apply tally_sublist|done]).
Qed.

(** X16. The three lists of a run follow the order of discovery: each of
    [processed_files], [skipped_files] and [failed_files] lists its images
    in the order in which [find_image_files] returned them. *)
Theorem lists_follow_the_order_of_discovery rt args fs images :
  find_image_files fs (source_folder args) = inr images →
  let s' := (batch rt args (initial fs)).2 in
  processed_files s' `sublist_of` map name images ∧
  skipped_files s' `sublist_of` map name images ∧
  failed_files s' `sublist_of` map name images.
Proof.
  intros Hfind s'. subst s'. destruct (decide (images = [])) as [->|Hne].
  - rewrite (batch_no_images rt args (initial fs) Hfind). by cbn.
  - rewrite (batch_eq rt args (initial fs) images Hfind Hne). cbn [snd].
    cbn [processed_files skipped_files failed_files]. unfold loop_end.
    destruct (process_all_order rt args (length images) images 0
                (loop_start images (initial fs)))
      as (P & S & F & -> & -> & -> & HP & HS & HF).
    done.
Qed.

(** ** The processes a run starts *)

Lemma step_spawns rt args p s :
  model args ∈ MODEL_CHOICES →
  map call_image (List.filter is_spawn (step_calls rt args p s))
    = (if skips args p s then [] else [p]) ∧
  Forall (λ c, ∀ q cmd t, c = Spawned q cmd t → t = 120%Z) (step_calls rt args p s) ∧
  (length (tally (step_verdict rt args p s) Succeeded (name p))
   + length (tally (step_verdict rt args p s) Failed (name p))
   = if skips args p s then 0 else 1)%nat.
Proof.
  intros Hm. unfold step_calls, step_verdict. destruct (skips args p s); [done|].
  destruct (build_cmd_supported rt (str_of_path p) _ (style args) (max_tokens args) Hm)
    as (cmd & Hcmd).
  rewrite (invoker_calls_spawned rt p _ _ _ cmd Hcmd).
  split; [|split].
  - rewrite List.filter_app. cbn.
    destruct (answer rt args p) as [| | | |text| |]; try done.
    by destruct (usable text).
  - apply Forall_app. split.
    + repeat constructor; intros q c t Heq; [discriminate|by injection Heq].
    + destruct (answer rt args p) as [| | | |text| |]; try done.
      destruct (usable text); repeat constructor. intros q c t Heq. discriminate.
  - destruct (answer rt args p) as [| | | |text| |]; try done.
    by destruct (_ && _).
Qed.

Lemma process_all_spawns rt args total_files l :
  model args ∈ MODEL_CHOICES →
  ∀ i s,
    let s' := (process_all rt args total_files i l s).2 in
    ∃ cs, calls s' = calls s ++ cs ∧
          map call_image (List.filter is_spawn cs) `sublist_of` l ∧
          Forall (λ c, ∀ q cmd t, c = Spawned q cmd t → t = 120%Z) cs ∧
          (length (List.filter is_spawn cs)
           + length (processed_files s) + length (failed_files s)
           = length (processed_files s') + length (failed_files s'))%nat.
Proof.
  intros Hm. induction l as [|p l IH]; intros i s; cbn zeta.
  - exists []. cbn. by rewrite app_nil_r.
  - rewrite process_all_cons.
    destruct (IH (S i) (process_image rt args total_files i p s).2)
      as (cs & -> & Hsub & Ht & Hlen).
    rewrite <- Hlen. rewrite process_image_eq.
    cbn [snd processed_files failed_files calls].
    destruct (step_spawns rt args p s Hm) as (Hstep & Htstep & Hcount).
    exists (step_calls rt args p s ++ cs). rewrite <- app_assoc.
    split; [done|]. rewrite List.filter_app, map_app, Hstep. split; [|split].
    + destruct (skips args p s); cbn [app]; [by apply sublist_cons|by apply sublist_skip].
    + by apply Forall_app.
    + rewrite !length_app, <- (length_map call_image (List.filter is_spawn (step_calls _ _ _ _))).
      rewrite Hstep. destruct (skips args p s); cbn [length] in *; lia.
Qed.

(** X17. With a model of the list of choices, a run starts one backend
    process for every image it does not skip and none for the others: the
    processes are started in the order of discovery, at most one for an
    image, each with the timeout of 120 seconds, and there are as many as
    images counted as processed or failed. *)
Theorem one_process_for_every_image_not_skipped rt args fs images :
  find_image_files fs (source_folder args) = inr images →
  model args ∈ MODEL_CHOICES →
  let s' := (batch rt args (initial fs)).2 in
  map call_image (List.filter is_spawn (calls s')) `sublist_of` images ∧
  (∀ q cmd t, Spawned q cmd t ∈ calls s' → t = 120%Z) ∧
  (length (List.filter is_spawn (calls s'))
   = length (processed_files s') + length (failed_files s'))%nat.
Proof.
  intros Hfind Hm s'. subst s'. destruct (decide (images = [])) as [->|Hne].
  - rewrite (batch_no_images rt args (initial fs) Hfind). cbn.
    split; [done|]. split; [|done]. by intros q cmd t ?%elem_of_nil.
  - rewrite (batch_eq rt args (initial fs) images Hfind Hne). cbn [snd].
    cbn [processed_files failed_files calls]. unfold loop_end.
    destruct (process_all_spawns rt args (length images) images Hm 0
                (loop_start images (initial fs)))
      as (cs & -> & Hsub & Ht & Hlen).
    cbn [loop_start calls processed_files failed_files initial app length] in *.
    split; [done|]. split; [|lia].
    intros q cmd t Hin. rewrite Forall_forall in Ht. by apply (Ht _ Hin q cmd t).
Qed.

(** ** The lines a run prints *)

Lemma shown_caption_length c : (length (shown_caption c) ≤ 103)%nat.
Proof.
  unfold shown_caption. destruct (100 <? length c)%nat eqn:Hlen.
  - rewrite length_app, length_take. change (length (py "...")) with 3%nat. lia.
  - apply Nat.ltb_ge in Hlen. lia.
Qed.

Lemma step_events_processed rt args total_files i p s :
  omap processed_event_name (step_events rt args total_files i p s)
    = tally (step_verdict rt args p s) Succeeded (name p) ∧
  ∀ n c, FileProcessedEvent n c ∈ step_events rt args total_files i p s →
    ∃ text, n = name p ∧ answer rt args p = PyStr text ∧ c = shown_caption text.
Proof.
  unfold step_events, step_verdict. destruct (skips args p s).
  { split; [done|]. intros n c Hin. apply list_elem_of_singleton in Hin. discriminate. }
  destruct (answer rt args p) as [| | | |text| |].
  all: try (split; [done|]; intros n c Hin; apply list_elem_of_singleton in Hin;
            discriminate).
  destruct (_ && _).
  - split; [done|]. intros n c Hin.
    rewrite !elem_of_cons, elem_of_nil in Hin. destruct Hin as [Hin|[Hin|[]]];
      [discriminate|]. injection Hin as -> ->. by exists text.
  - split; [done|]. intros n c Hin. apply list_elem_of_singleton in Hin. discriminate.
Qed.

(** X18. The [file_processed] lines of a run name, in order, the images of
    [processed_files], one line for each; the caption a line shows is the
    caption the backend gave for that image, cut to 100 characters and
    three dots when it is longer. *)
Theorem file_processed_lines_match_the_summary rt args fs images :
  find_image_files fs (source_folder args) = inr images →
  let s' := (batch rt args (initial fs)).2 in
  omap processed_event_name (printed s') = processed_files s' ∧
  ∀ n c, FileProcessedEvent n c ∈ printed s' →
    ∃ img text, img ∈ images ∧ n = name img ∧ answer rt args img = PyStr text ∧
                c = shown_caption text ∧ (length c ≤ 103)%nat.
Proof.
  intros Hfind s'. subst s'. destruct (decide (images = [])) as [->|Hne].
  { rewrite (batch_no_images rt args (initial fs) Hfind). cbn.
    split; [done|]. intros n c Hin. apply list_elem_of_singleton in Hin. discriminate. }
  rewrite (batch_eq rt args (initial fs) images Hfind Hne). cbn [snd].
  cbn [processed_files printed]. unfold loop_end.
  set (Inv := λ s : state,
         omap processed_event_name (printed s) = processed_files s ∧
         ∀ n c, FileProcessedEvent n c ∈ printed s →
           ∃ img text, img ∈ images ∧ n = name img ∧ answer rt args img = PyStr text ∧
                       c = shown_caption text ∧ (length c ≤ 103)%nat).
  assert (Hend : Inv (process_all rt args (length images) 0 images
                        (loop_start images (initial fs))).2).
  { apply process_all_invariant.
    - intros i p s Hp [Hnames Hlines]. rewrite process_image_eq. cbn [snd].
      destruct (step_events_processed rt args (length images) i p s) as [Hstep Hshown].
      split; cbn [printed processed_files].
      + by rewrite omap_app, Hnames, Hstep.
      + intros n c [Hin|Hin]%elem_of_app; [by apply Hlines|].
        destruct (Hshown n c Hin) as (text & -> & Hanswer & ->).
        exists p, text. repeat split; try done. apply shown_caption_length.
    - split; [done|]. cbn. intros n c Hin. apply list_elem_of_singleton in Hin.
      discriminate. }
  destruct Hend as [Hnames Hlines]. split.
  - by rewrite omap_app, Hnames, app_nil_r.
  - intros n c [Hin|Hin]%elem_of_app; [by apply Hlines|].
    rewrite !elem_of_cons, elem_of_nil in Hin. by destruct Hin as [Hin|[Hin|[]]].
Qed.

Lemma process_all_positions rt args total_files (images l : list Path) : ∀ i s,
  (∀ j p, l !! j = Some p → images !! (i + j)%nat = Some p) →
  let Q := λ e : event, ∀ msg cur tot fname,
             e = ProgressEvent msg (Some (cur, tot, fname)) →
             tot = total_files ∧ (1 ≤ cur)%nat ∧
             ∃ p, images !! (cur - 1)%nat = Some p ∧ fname = name p in
  Forall Q (printed s) →
  Forall Q (printed (process_all rt args total_files i l s).2).
Proof.
  induction l as [|p l IH]; intros i s Hat Q Hs; [done|].
  rewrite process_all_cons. apply IH.
  - intros j q Hq. replace (S i + j)%nat with (i + S j)%nat by lia. by apply Hat.
  - rewrite process_image_eq. cbn [snd printed]. apply Forall_app. split; [done|].
    unfold step_events. destruct (skips args p s).
    { apply Forall_singleton. intros msg cur tot fname Heq. discriminate. }
    constructor.
    + intros msg cur tot fname Heq. injection Heq as _ <- <- <-.
      split; [done|]. split; [lia|]. exists p. split; [|done].
      replace (i + 1 - 1)%nat with (i + 0)%nat by lia. by apply Hat.
    + destruct (answer rt args p) as [| | | |text| |]; try done.
      destruct (_ && _); [|done]. apply Forall_singleton.
      intros msg cur tot fname Heq. discriminate.
Qed.

(** X19. A progress line that carries a position gives the total number of
    images as its total and the place of its image in the order of
    discovery, counted from one, as its current position. *)
Theorem progress_positions_follow_discovery rt args fs images msg cur tot fname :
  find_image_files fs (source_folder args) = inr images →
  ProgressEvent msg (Some (cur, tot, fname)) ∈ printed (batch rt args (initial fs)).2 →
  tot = length images ∧ (1 ≤ cur ≤ length images)%nat ∧
  ∃ img, images !! (cur - 1)%nat = Some img ∧ fname = name img.
Proof.
  intros Hfind. destruct (decide (images = [])) as [->|Hne].
  { rewrite (batch_no_images rt args (initial fs) Hfind). cbn.
    intros Hin. apply list_elem_of_singleton in Hin. discriminate. }
  rewrite (batch_eq rt args (initial fs) images Hfind Hne). cbn [snd printed].
  unfold loop_end.
  pose proof (process_all_positions rt args (length images) images images 0
                (loop_start images (initial fs)) (λ j p H, H)) as Hpos.
  cbn zeta in Hpos.
  intros [Hin|Hin]%elem_of_app.
  - assert (Hstart : Forall (λ e : event, ∀ msg cur tot fname,
                        e = ProgressEvent msg (Some (cur, tot, fname)) →
                        tot = length images ∧ (1 ≤ cur)%nat ∧
                        ∃ p, images !! (cur - 1)%nat = Some p ∧ fname = name p)
                      (printed (loop_start images (initial fs)))).
    { apply Forall_singleton. intros ? ? ? ? Heq. discriminate. }
    specialize (Hpos Hstart). rewrite Forall_forall in Hpos.
    destruct (Hpos _ Hin msg cur tot fname eq_refl)
      as (Htot & Hcur & img & Himg & Hname).
    split; [done|]. split; [|by exists img].
    apply lookup_lt_Some in Himg. lia.
  - rewrite !elem_of_cons, elem_of_nil in Hin. by destruct Hin as [Hin|[Hin|[]]].
Qed.

(** * The further properties at work *)

(** X1 on a run: a backend that exits with code 1 and a message on its
    standard error. *)
Lemma nonzero_exit_fails_the_image_witness :
  let rt := stub_runtime (captions_only [] []) in
  let args := args_for "blip" false in
  let s := initial fs_one in
  let s' := (process_image rt args 1 0 a_jpg s).2 in
  skips args a_jpg s = false ∧
  subprocess_run rt (blip_cmd "imgs/a.jpg") 120
    = inr (mkCompleted 1 [] (py "cannot read image")) ∧
  returns rt args a_jpg (PyStr (py "Error: cannot read image")) ∧
  classified Failed (name a_jpg) s s' ∧
  files s' = fs_one.
Proof.
  intros rt args s s'.
  assert (Hskip : skips args a_jpg s = false) by by_running.
  assert (Hcmd : build_cmd rt (str_of_path a_jpg) (model args) (style args) (max_tokens args)
                 = inr (blip_cmd "imgs/a.jpg")) by by_running.
  assert (Hrun : subprocess_run rt (blip_cmd "imgs/a.jpg") 120
                 = inr (mkCompleted 1 [] (py "cannot read image"))) by reflexivity.
  assert (Hrc : returncode (mkCompleted 1 [] (py "cannot read image")) ≠ 0%Z)
    by discriminate.
  destruct (nonzero_exit_fails_the_image rt args 1 0 a_jpg s _ _ Hskip Hcmd Hrun Hrc)
    as (Hans & Hfailed & Hfiles & _).
  exact (conj Hskip (conj Hrun (conj Hans (conj Hfailed Hfiles)))).
Defined.

(** X2 on a run: the interpreter of the backends is missing. *)
Lemma spawn_exception_fails_the_image_witness :
  let rt := stub_runtime cannot_start in
  let args := args_for "blip" false in
  let s := initial fs_one in
  let s' := (process_image rt args 1 0 a_jpg s).2 in
  skips args a_jpg s = false ∧
  subprocess_run rt (blip_cmd "imgs/a.jpg") 120
    = inl (OSError (py "[Errno 2] No such file or directory: 'python3'")) ∧
  returns rt args a_jpg
    (PyStr (py "Error: [Errno 2] No such file or directory: 'python3'")) ∧
  classified Failed (name a_jpg) s s' ∧
  files s' = fs_one.
Proof.
  intros rt args s s'.
  assert (Hskip : skips args a_jpg s = false) by by_running.
  assert (Hcmd : build_cmd rt (str_of_path a_jpg) (model args) (style args) (max_tokens args)
                 = inr (blip_cmd "imgs/a.jpg")) by by_running.
  assert (Hrun : subprocess_run rt (blip_cmd "imgs/a.jpg") 120
                 = inl (OSError (py "[Errno 2] No such file or directory: 'python3'")))
    by reflexivity.
  assert (Hne : ∀ msg, OSError (py "[Errno 2] No such file or directory: 'python3'")
                       ≠ TimeoutExpired msg) by discriminate.
  destruct (spawn_exception_fails_the_image rt args 1 0 a_jpg s _ _ Hskip Hcmd Hrun Hne)
    as (Hans & Hfailed & Hfiles & _).
  exact (conj Hskip (conj Hrun (conj Hans (conj Hfailed Hfiles)))).
Defined.

(** X3 on a run: the caption of the JSON object keeps its blanks. *)
Lemma json_caption_is_used_as_it_is_witness :
  let rt := stub_runtime (says (caption_json (quoted (py " a cat ")))) in
  let args := args_for "florence-2" false in
  let s := initial fs_one in
  let s' := (process_image rt args 1 0 a_jpg s).2 in
  skips args a_jpg s = false ∧
  json_loads rt (strip (caption_json (quoted (py " a cat "))))
    = inr (PyDict [(py "caption", PyStr (py " a cat "))]) ∧
  returns rt args a_jpg (PyStr (py " a cat ")) ∧
  classified Succeeded (name a_jpg) s s' ∧
  lookup_entry (files s') imgs (py "a.txt") = Some (File (py " a cat ") true).
Proof.
  intros rt args s s'.
  assert (Hskip : skips args a_jpg s = false) by by_running.
  assert (Hcmd : build_cmd rt (str_of_path a_jpg) (model args) (style args) (max_tokens args)
                 = inr (florence_cmd "imgs/a.jpg")) by by_running.
  assert (Hrun : subprocess_run rt (florence_cmd "imgs/a.jpg") 120
                 = inr (mkCompleted 0 (caption_json (quoted (py " a cat "))) []))
    by reflexivity.
  assert (Hjs : json_loads rt (strip (caption_json (quoted (py " a cat "))))
                = inr (PyDict [(py "caption", PyStr (py " a cat "))])) by by_running.
  assert (Hkey : dict_lookup (py "caption") [(py "caption", PyStr (py " a cat "))]
                 = Some (PyStr (py " a cat "))) by by_running.
  destruct (json_caption_is_used_as_it_is rt args 1 0 a_jpg s _ _ _ _
              Hskip eq_refl Hcmd Hrun eq_refl Hjs Hkey) as (Hans & Hiff & _ & Hfile).
  assert (Hs : classified Succeeded (name a_jpg) s s').
  { apply Hiff. split; [by_running|]. split; by_running. }
  exact (conj Hskip (conj Hjs (conj Hans (conj Hs (Hfile Hs))))).
Defined.

(** X4 on a run: the backend prints a JSON array. *)
Lemma json_that_is_not_an_object_fails_witness :
  let rt := stub_runtime (says (py "[1, 2]")) in
  let args := args_for "florence-2" false in
  let s := initial fs_one in
  let s' := (process_image rt args 1 0 a_jpg s).2 in
  skips args a_jpg s = false ∧
  json_loads rt (strip (py "[1, 2]")) = inr (PyList [PyInt 1; PyInt 2]) ∧
  returns rt args a_jpg (PyStr (py "Error: 'list' object has no attribute 'get'")) ∧
  classified Failed (name a_jpg) s s' ∧
  files s' = fs_one.
Proof.
  intros rt args s s'.
  assert (Hskip : skips args a_jpg s = false) by by_running.
  assert (Hcmd : build_cmd rt (str_of_path a_jpg) (model args) (style args) (max_tokens args)
                 = inr (florence_cmd "imgs/a.jpg")) by by_running.
  assert (Hrun : subprocess_run rt (florence_cmd "imgs/a.jpg") 120
                 = inr (mkCompleted 0 (py "[1, 2]") [])) by reflexivity.
  assert (Hjs : json_loads rt (strip (py "[1, 2]")) = inr (PyList [PyInt 1; PyInt 2]))
    by by_running.
  assert (Hv : ∀ items, PyList [PyInt 1; PyInt 2] ≠ PyDict items) by discriminate.
  destruct (json_that_is_not_an_object_fails rt args 1 0 a_jpg s _ _ _
              Hskip eq_refl Hcmd Hrun eq_refl Hjs Hv) as (Hans & Hfailed & Hfiles).
  exact (conj Hskip (conj Hjs (conj Hans (conj Hfailed Hfiles)))).
Defined.

(** X5 on a run: the caption of the JSON object is a number. *)
Lemma caption_that_is_not_a_text_fails_witness :
  let rt := stub_runtime (says (caption_json (py "5"))) in
  let args := args_for "florence-2" false in
  let s := initial fs_one in
  let s' := (process_image rt args 1 0 a_jpg s).2 in
  skips args a_jpg s = false ∧
  json_loads rt (strip (caption_json (py "5"))) = inr (PyDict [(py "caption", PyInt 5)]) ∧
  returns rt args a_jpg (PyInt 5) ∧
  classified Failed (name a_jpg) s s' ∧
  files s' = fs_one.
Proof.
  intros rt args s s'.
  assert (Hskip : skips args a_jpg s = false) by by_running.
  assert (Hcmd : build_cmd rt (str_of_path a_jpg) (model args) (style args) (max_tokens args)
                 = inr (florence_cmd "imgs/a.jpg")) by by_running.
  assert (Hrun : subprocess_run rt (florence_cmd "imgs/a.jpg") 120
                 = inr (mkCompleted 0 (caption_json (py "5")) [])) by reflexivity.
  assert (Hjs : json_loads rt (strip (caption_json (py "5")))
                = inr (PyDict [(py "caption", PyInt 5)])) by by_running.
  assert (Hkey : dict_lookup (py "caption") [(py "caption", PyInt 5)] = Some (PyInt 5))
    by by_running.
  assert (Hv : ∀ text, PyInt 5 ≠ PyStr text) by discriminate.
  destruct (caption_that_is_not_a_text_fails rt args 1 0 a_jpg s _ _ _ _
              Hskip eq_refl Hcmd Hrun eq_refl Hjs Hkey Hv)
    as (Hans & Hfailed & Hfiles & _).
  exact (conj Hskip (conj Hjs (conj Hans (conj Hfailed Hfiles)))).
Defined.

(** X6 on a run: the folder [imgs] of an empty file system. *)
Lemma missing_folder_ends_with_one_error_line_witness :
  let rt := stub_runtime (says (py "a cat")) in
  let args := args_for "blip" false in
  parse_args args = Some args ∧
  main rt args (initial ∅) =
    (1%Z,
     mkState ∅
       [ErrorEvent (py "Batch caption generation failed: "
                      ++ py "Source folder does not exist: " ++ imgs)]
       [] [] [] []).
Proof.
  intros rt args.
  assert (Hargs : parse_args args = Some args) by by_running.
  assert (Hfs : (∅ : filesystem) !! source_folder args = None) by apply lookup_empty.
  exact (conj Hargs (missing_folder_ends_with_one_error_line rt args ∅ Hargs Hfs)).
Defined.

(** X8 on a run: another style and another limit with florence-2. *)
Lemma florence_run_ignores_style_and_max_tokens_witness :
  let rt := stub_runtime (says (py "a cat")) in
  let args := args_for "florence-2" false in
  model args = py "florence-2" ∧
  batch rt (mkArgs imgs (py "florence-2") (py "simple") None false 10) (initial fs_three)
  = batch rt args (initial fs_three).
Proof.
  intros rt args.
  exact (conj eq_refl
           (florence_run_ignores_style_and_max_tokens rt args (py "simple") 10
              (initial fs_three) eq_refl)).
Defined.

(** X12 on two runs: the second, with another model and a backend that
    hangs, skips the image the first one captioned. *)
Lemma second_run_skips_the_captioned_images_witness :
  let args1 := args_for "blip" false in
  let args2 := args_for "florence-2" false in
  let rt2 := stub_runtime hangs in
  let s1 := (batch rt_three args1 (initial fs_three)).2 in
  let s2 := (batch rt2 args2 (initial (files s1))).2 in
  find_image_files fs_three (source_folder args1) = inr [a_jpg; b_png; c_webp] ∧
  name b_png ∈ processed_files s1 ∧
  name b_png ∈ skipped_files s2 ∧
  (name b_png ∉ processed_files s2).
Proof.
  intros args1 args2 rt2 s1 s2.
  assert (Hfind : find_image_files fs_three (source_folder args1)
                  = inr [a_jpg; b_png; c_webp]) by by_running.
  assert (Himg : b_png ∈ [a_jpg; b_png; c_webp]) by by_deciding.
  assert (Hin : name b_png ∈ processed_files s1) by by_deciding.
  destruct (second_run_skips_the_captioned_images rt_three rt2 args1 args2 fs_three _ b_png
              Hfind Himg eq_refl eq_refl (or_introl Hin)) as (_ & Hskipped & Hnot & _).
  exact (conj Hfind (conj Hin (conj Hskipped Hnot))).
Defined.

(** X13 on a run: two images with different stems and no sidecar. *)
Lemma uncaptioned_folder_skips_nothing_witness :
  let args := args_for "blip" false in
  let s' := (batch rt_three args (initial fs_fresh)).2 in
  find_image_files fs_fresh (source_folder args) = inr [a_jpg; b_png] ∧
  NoDup (map caption_name [a_jpg; b_png]) ∧
  skipped_files s' = [] ∧
  (length (processed_files s') + length (failed_files s') = 2)%nat.
Proof.
  intros args s'.
  assert (Hfind : find_image_files fs_fresh (source_folder args) = inr [a_jpg; b_png])
    by by_running.
  assert (Hne : [a_jpg; b_png] ≠ []) by discriminate.
  assert (Hstems : NoDup (map caption_name [a_jpg; b_png])) by by_deciding.
  assert (Hnone : ∀ img, img ∈ [a_jpg; b_png] → has_caption fs_fresh img = false).
  { intros img Himg. rewrite !elem_of_cons, elem_of_nil in Himg.
    destruct Himg as [->|[->|[]]]; by_running. }
  exact (conj Hfind (conj Hstems
           (uncaptioned_folder_skips_nothing rt_three args fs_fresh _
              Hfind Hne Hstems Hnone))).
Defined.

(** X14 on a run: the caption of [b.PNG] is in [b.txt]. *)
Lemma processed_image_has_its_caption_on_disk_witness :
  let args := args_for "blip" false in
  let s' := (batch rt_three args (initial fs_fresh)).2 in
  find_image_files fs_fresh (source_folder args) = inr [a_jpg; b_png] ∧
  name b_png ∈ processed_files s' ∧
  ∃ text, answer rt_three args b_png = PyStr text ∧
          lookup_entry (files s') imgs (py "b.txt")
            = Some (File (final_caption text (template args)) true).
Proof.
  intros args s'.
  assert (Hfind : find_image_files fs_fresh (source_folder args) = inr [a_jpg; b_png])
    by by_running.
  assert (Himg : b_png ∈ [a_jpg; b_png]) by by_deciding.
  assert (Hstems : NoDup (map caption_name [a_jpg; b_png])) by by_deciding.
  assert (Hin : name b_png ∈ processed_files s') by by_deciding.
  exact (conj Hfind (conj Hin
           (processed_image_has_its_caption_on_disk rt_three args fs_fresh _ b_png
              Hfind Himg Hstems Hin))).
Defined.

(** X15 on a run: one image with its sidecar, and a backend that would
    hang. *)
Lemma captioned_folder_is_left_as_it_is_witness :
  let rt := stub_runtime hangs in
  let args := args_for "blip" false in
  let s' := (batch rt args (initial fs_captioned)).2 in
  find_image_files fs_captioned (source_folder args) = inr [a_jpg] ∧
  files s' = fs_captioned ∧ calls s' = [] ∧ skipped_files s' = [py "a.jpg"].
Proof.
  intros rt args s'.
  assert (Hfind : find_image_files fs_captioned (source_folder args) = inr [a_jpg])
    by by_running.
  assert (Hne : [a_jpg] ≠ []) by discriminate.
  assert (Hcap : ∀ img, img ∈ [a_jpg] → has_caption fs_captioned img = true).
  { intros img Himg. apply list_elem_of_singleton in Himg. subst img. by_running. }
  destruct (captioned_folder_is_left_as_it_is rt args fs_captioned _ Hfind Hne eq_refl Hcap)
    as (Hfiles & Hcalls & Hskipped & _).
  exact (conj Hfind (conj Hfiles (conj Hcalls Hskipped))).
Defined.

(** X16 on a run over three images. *)
Lemma lists_follow_the_order_of_discovery_witness :
  let args := args_for "blip" true in
  let s' := (batch rt_three args (initial fs_three)).2 in
  find_image_files fs_three (source_folder args) = inr [a_jpg; b_png; c_webp] ∧
  failed_files s' `sublist_of` [py "a.jpg"; py "b.PNG"; py "c.webp"].
Proof.
  intros args s'.
  assert (Hfind : find_image_files fs_three (source_folder args)
                  = inr [a_jpg; b_png; c_webp]) by by_running.
  exact (conj Hfind
           (proj2 (proj2 (lists_follow_the_order_of_discovery rt_three args fs_three _
                            Hfind)))).
Defined.

(** X17 on a run over three images, one of them skipped. *)
Lemma one_process_for_every_image_not_skipped_witness :
  let args := args_for "blip" false in
  let s' := (batch rt_three args (initial fs_three)).2 in
  find_image_files fs_three (source_folder args) = inr [a_jpg; b_png; c_webp] ∧
  model args ∈ MODEL_CHOICES ∧
  (length (List.filter is_spawn (calls s'))
   = length (processed_files s') + length (failed_files s'))%nat.
Proof.
  intros args s'.
  assert (Hfind : find_image_files fs_three (source_folder args)
                  = inr [a_jpg; b_png; c_webp]) by by_running.
  assert (Hm : model args ∈ MODEL_CHOICES) by by_deciding.
  exact (conj Hfind (conj Hm
           (proj2 (proj2 (one_process_for_every_image_not_skipped rt_three args fs_three _
                            Hfind Hm))))).
Defined.

(** X18 on a run over three images. *)
Lemma file_processed_lines_match_the_summary_witness :
  let args := args_for "blip" false in
  let s' := (batch rt_three args (initial fs_three)).2 in
  find_image_files fs_three (source_folder args) = inr [a_jpg; b_png; c_webp] ∧
  omap processed_event_name (printed s') = processed_files s'.
Proof.
  intros args s'.
  assert (Hfind : find_image_files fs_three (source_folder args)
                  = inr [a_jpg; b_png; c_webp]) by by_running.
  exact (conj Hfind
           (proj1 (file_processed_lines_match_the_summary rt_three args fs_three _ Hfind))).
Defined.

(** X19 on a run over three images: the line of the second one. *)
Lemma progress_positions_follow_discovery_witness :
  let args := args_for "blip" false in
  let s' := (batch rt_three args (initial fs_three)).2 in
  find_image_files fs_three (source_folder args) = inr [a_jpg; b_png; c_webp] ∧
  ProgressEvent (py "Processing 2/3: b.PNG") (Some (2%nat, 3%nat, py "b.PNG")) ∈ printed s' ∧
  ∃ img, [a_jpg; b_png; c_webp] !! 1%nat = Some img ∧ py "b.PNG" = name img.
Proof.
  intros args s'.
  assert (Hfind : find_image_files fs_three (source_folder args)
                  = inr [a_jpg; b_png; c_webp]) by by_running.
  assert (Hin : ProgressEvent (py "Processing 2/3: b.PNG") (Some (2%nat, 3%nat, py "b.PNG"))
                ∈ printed s') by by_deciding.
  exact (conj Hfind (conj Hin
           (proj2 (proj2 (progress_positions_follow_discovery rt_three args fs_three _ _ _ _ _
                            Hfind Hin))))).
Defined.
